(** * twitter_api: the users resource (src/v1/routes/user.py)

    A shallow embedding of the five path operations of the users router
    (signup, get_all_users, get_user, update_user, delete_user) and of the
    collaborators they call: the Fernet cipher of the [cryptography] package
    and the SQL connection on the [users] table.

    Python values are embedded as follows: [str] is a [string] holding the
    UTF-8 bytes, [bytes] is a [list byte], a [dict] with string keys (and a
    result row, which the source spreads with [**res]) is a [gmap string
    value], [datetime] is the record of its calendar fields.  A path
    operation is a computation in a state-and-exception monad over the table. *)

From Stdlib Require Import ZArith NArith Lia.
From Stdlib Require Import Strings.Byte Strings.String Strings.Ascii.
From stdpp Require Import base option list gmap strings.

Local Open Scope string_scope.
Local Open Scope list_scope.

(** ** Bytes *)

#[global] Instance byte_eq_dec : EqDecision byte := Byte.byte_eq_dec.

Definition byte_of (n : N) : byte := default Byte.x00 (Byte.of_N n).

(** [n.to_bytes(len, "big")] for [n < 256 ^ len]. *)
Fixpoint to_bytes_big (len : nat) (n : N) : list byte :=
  match len with
  | O => []
  | S k => byte_of ((n / 256 ^ N.of_nat k) mod 256) :: to_bytes_big k n
  end.

(** ** base64.urlsafe_b64encode *)

Module Base64.

Definition alphabet : list byte :=
  list_byte_of_string
    "ABCDEFGHIJKLMNOPQRSTUVWXYZabcdefghijklmnopqrstuvwxyz0123456789-_".

Definition pad : byte := "="%byte.

Definition char (n : N) : byte := List.nth (N.to_nat n) alphabet pad.

(** The [i]-th 6-bit group of a 24-bit quantum; group 3 is the leading one. *)
Definition sextet (i : N) (q : N) : byte := char ((q / 64 ^ i) mod 64).

Definition quantum (a b c : byte) : N :=
  (Byte.to_N a * 65536 + Byte.to_N b * 256 + Byte.to_N c)%N.

Fixpoint urlsafe_b64encode (s : list byte) : list byte :=
  match s with
  | [] => []
  | [a] =>
      let q := quantum a Byte.x00 Byte.x00 in
      [sextet 3 q; sextet 2 q; pad; pad]
  | [a; b] =>
      let q := quantum a b Byte.x00 in
      [sextet 3 q; sextet 2 q; sextet 1 q; pad]
  | a :: b :: c :: rest =>
      let q := quantum a b c in
      sextet 3 q :: sextet 2 q :: sextet 1 q :: sextet 0 q
        :: urlsafe_b64encode rest
  end.

(** Position of a character in a list; [index] inverts [char] on the
    alphabet, and the pad character has no index. *)
Fixpoint find_index (c : byte) (l : list byte) : option N :=
  match l with
  | [] => None
  | x :: l' => if decide (x = c) then Some 0%N else N.succ <$> find_index c l'
  end.

Definition index (c : byte) : option N := find_index c alphabet.

End Base64.

(** ** cryptography.fernet.Fernet

    The router imports [Fernet] (line 11) and builds one instance at import
    time (lines 22-23).  The token layout below is that of the package's
    [Fernet._encrypt_from_parts]; AES-128-CBC and HMAC-SHA256 are the
    primitives of the package's backend and stay abstract. *)

Class Backend := {
  aes128_cbc_encrypt : list byte → list byte → list byte → list byte;
  hmac_sha256 : list byte → list byte → list byte
}.

Record Fernet := {
  _signing_key : list byte;
  _encryption_key : list byte
}.

(** [Fernet(key)]: the first half of the 32 decoded key bytes signs, the
    second half encrypts. *)
Definition Fernet_init (key : list byte) : Fernet :=
  {| _signing_key := take 16 key; _encryption_key := drop 16 key |}.

(** [padding.PKCS7(128).padder()]: always pads, with 1 to 16 bytes. *)
Definition pkcs7_pad (data : list byte) : list byte :=
  let p := (16 - length data mod 16)%nat in
  data ++ replicate p (byte_of (N.of_nat p)).

Section FernetEncrypt.
Context `{Backend}.

Definition _encrypt_from_parts
    (f : Fernet) (data : list byte) (current_time : N) (iv : list byte)
    : list byte :=
  let padded_data := pkcs7_pad data in
  let ciphertext := aes128_cbc_encrypt (_encryption_key f) iv padded_data in
  let basic_parts :=
    Byte.x80 :: to_bytes_big 8 current_time ++ iv ++ ciphertext in
  let hmac := hmac_sha256 (_signing_key f) basic_parts in
  Base64.urlsafe_b64encode (basic_parts ++ hmac).

End FernetEncrypt.

(** ** Values, rows and the table *)

(** [datetime.datetime]: the calendar fields the object holds. *)
Record datetime := {
  year : N; month : N; day : N;
  hour : N; minute : N; second : N; microsecond : N
}.

#[global] Instance datetime_eq_dec : EqDecision datetime.
Proof. solve_decision. Defined.

Definition digit (n : N) : ascii := ascii_of_N (48 + n mod 10).

(** [n] printed in decimal on exactly [width] digits. *)
Fixpoint zfill (width : nat) (n : N) : string :=
  match width with
  | O => ""
  | S w => zfill w (n / 10) +:+ String (digit n) ""
  end.

(** [str(d)] for a naive datetime: ISO format with a space separator, the
    fraction printed only when it is not zero. *)
Definition str_datetime (d : datetime) : string :=
  zfill 4 (year d) +:+ "-" +:+ zfill 2 (month d) +:+ "-" +:+ zfill 2 (day d)
  +:+ " " +:+ zfill 2 (hour d) +:+ ":" +:+ zfill 2 (minute d)
  +:+ ":" +:+ zfill 2 (second d)
  +:+ (if (microsecond d =? 0)%N then "" else "." +:+ zfill 6 (microsecond d)).

Inductive value :=
| VNone
| VInt (n : Z)
| VStr (s : string)
| VBytes (b : list byte)
| VDatetime (d : datetime).

#[global] Instance value_eq_dec : EqDecision value.
Proof. solve_decision. Defined.

(** A result row and a dict keyed by column name. *)
Abbreviation row := (gmap string value).

(** Modelled from the spec: the [users] table of core/models/user.py, which
    is not part of the sources.  The spec gives its columns and has storage
    assign the surrogate key [id]; the table is its rows in storage order
    and the next value of the key. *)
Record store := {
  rows : list row;
  auto_increment : Z
}.

Definition empty_store : store := {| rows := []; auto_increment := 1 |}.

(** ** Exceptions and the monad of a request *)

(** [sqlalchemy.exc]: [IntegrityError] and the errors of the driver that
    are not integrity errors. *)
Inductive sqlalchemy_exc :=
| IntegrityError (msg : string)
| DBAPIError (msg : string).

Inductive exn :=
| HTTPException (status_code : Z) (detail : string)
| SQLAlchemyError (e : sqlalchemy_exc)
| KeyError (key : string)
| RequestValidationError (loc : string).

(** [str(e)] of a database error: the message of the driver. *)
Definition str_exc (e : sqlalchemy_exc) : string :=
  match e with
  | IntegrityError m | DBAPIError m => m
  end.

Definition HTTP_204_NO_CONTENT : Z := 204.
Definition HTTP_404_NOT_FOUND : Z := 404.
Definition HTTP_409_CONFLICT : Z := 409.
Definition HTTP_500_INTERNAL_SERVER_ERROR : Z := 500.

Inductive outcome (A : Type) :=
| Return (a : A)
| Raise (e : exn).
Arguments Return {A} a.
Arguments Raise {A} e.

(** The value of an outcome that returned. *)
Definition returned {A} (o : outcome A) : option A :=
  match o with
  | Return a => Some a
  | Raise _ => None
  end.

(** A computation reads and writes the table and returns or raises; what was
    written before a raise stays written (the connection autocommits). *)
Definition M (A : Type) : Type := store → outcome A * store.

#[global] Instance M_ret : MRet M := λ A a s, (Return a, s).

#[global] Instance M_bind : MBind M := λ A B f m s,
  match m s with
  | (Return a, s') => f a s'
  | (Raise e, s') => (Raise e, s')
  end.

#[global] Instance M_fmap : FMap M := λ A B f m s,
  match m s with
  | (Return a, s') => (Return (f a), s')
  | (Raise e, s') => (Raise e, s')
  end.

Definition raise {A} (e : exn) : M A := λ s, (Raise e, s).

(** [try: m except: h] *)
Definition try_except {A} (m : M A) (h : exn → M A) : M A := λ s,
  match m s with
  | (Return a, s') => (Return a, s')
  | (Raise e, s') => h e s'
  end.

(** [d[k]] *)
Definition getitem (d : row) (k : string) : M value :=
  match d !! k with
  | Some v => mret v
  | None => raise (KeyError k)
  end.

(** [x is None], for the two kinds of object the router tests. *)
Class IsNone (A : Type) := is_None : A → bool.

Inductive module := Module_ (name : string).

#[global] Instance module_is_None : IsNone module := λ _, false.
#[global] Instance option_is_None {A} : IsNone (option A) := λ o,
  match o with None => true | Some _ => false end.

(** [needle in hay] on strings. *)
Fixpoint str_in (needle hay : string) : bool :=
  String.prefix needle hay ||
  match hay with
  | EmptyString => false
  | String _ hay' => str_in needle hay'
  end.

(** ** The SQL connection on the users table *)

(** What a request reads from outside the table: the clock, as the
    database default and [datetime.utcnow()] see it and as [time.time()]
    rounds it, and the 16 bytes [os.urandom] hands to the cipher. *)
Record env := {
  utcnow : datetime;
  time_time : N;
  os_urandom : list byte
}.

(** A [column == value] clause. *)
Definition clause : Type := string * value.

(** The statements the router builds: [users.insert().values(d)],
    [users.select()] with an optional [.where], [users.update(w).values] of
    a dict, and [users.delete().where(w)]. *)
Inductive statement :=
| Insert (values : row)
| Select (whereclause : option clause)
| Update (whereclause : clause) (values : row)
| Delete (whereclause : clause).

Definition matches (w : clause) (r : row) : bool :=
  bool_decide (r !! w.1 = Some w.2).

Definition emails (rs : list row) : list (option value) :=
  (λ r : row, r !! "email") <$> rs.

Definition ids (rs : list row) : list (option value) :=
  (λ r : row, r !! "id") <$> rs.

Definition email_str (r : row) : string :=
  match r !! "email" with
  | Some (VStr e) => e
  | _ => ""
  end.

(** Modelled from the spec: the uniqueness of [email], which the spec has
    storage enforce (the table definition, core/models/user.py, is not part
    of the sources). *)
Definition unique_email (rs : list row) : bool :=
  bool_decide (NoDup (emails rs)).

(** Modelled from the spec: the distinguishable error storage raises on a
    uniqueness violation (core/config/db.py is not part of the sources); its
    text is the one of the driver that [update_user] looks for on line 201. *)
Definition duplicate_entry (r : row) : sqlalchemy_exc :=
  IntegrityError
    ("Duplicate entry '" +:+ email_str r +:+ "' for key 'users.email'").

(** Modelled from the spec: what an insert adds to the values it is given
    (core/models/user.py is not part of the sources): the [id] assigned by
    storage and [created_at = updated_at = now]. *)
Definition column_defaults (now : datetime) (s : store) : row :=
  {[ "id" := VInt (auto_increment s);
     "created_at" := VDatetime now;
     "updated_at" := VDatetime now ]}.

(** Modelled from the spec: [connection.execute], the Storage Gateway
    (core/config/db.py is not part of the sources): insert, select, update
    and delete on the table, with an error on a uniqueness violation, rows
    returned in storage order and physical deletion.  [fault] is the
    failure, if any, with which the driver aborts the statement for a reason
    outside the table; a statement that fails changes nothing.  A dict given
    to [values] wins over the current columns of the row. *)
Definition execute_with (fault : option sqlalchemy_exc) (ev : env)
    (st : statement) : M (list row) := λ s,
  match fault with
  | Some e => (Raise (SQLAlchemyError e), s)
  | None =>
      match st with
      | Insert d =>
          let r := d ∪ column_defaults (utcnow ev) s in
          if unique_email (rows s ++ [r])
          then (Return [],
                {| rows := rows s ++ [r];
                   auto_increment := auto_increment s + 1 |})
          else (Raise (SQLAlchemyError (duplicate_entry r)), s)
      | Select None => (Return (rows s), s)
      | Select (Some w) => (Return (filter (λ r, matches w r) (rows s)), s)
      | Update w d =>
          let rs :=
            (λ r : row, if matches w r then d ∪ r else r) <$> rows s in
          if unique_email rs
          then (Return [],
                {| rows := rs; auto_increment := auto_increment s |})
          else (Raise (SQLAlchemyError (duplicate_entry d)), s)
      | Delete w =>
          (Return [],
           {| rows := filter (λ r, negb (matches w r)) (rows s);
              auto_increment := auto_increment s |})
      end
  end.

Definition fetchone (cursor : list row) : option row := head cursor.
Definition fetchall (cursor : list row) : list row := cursor.

(** ** Schemas *)

(** Modelled from the spec: core/schemas/user.py is not part of the
    sources; the spec gives the body of create and update as
    {first_name, last_name, email, password}.  A value of this type is a
    body that [Body(...)] has parsed and accepted: the path operations run
    only on such a body, and the checks of the schema itself are not
    modelled. *)
Record CreateUser := {
  first_name : string;
  last_name : string;
  email : string;
  password : string
}.

(** [user.dict()] *)
Definition dict (user : CreateUser) : row :=
  {[ "first_name" := VStr (first_name user);
     "last_name" := VStr (last_name user);
     "email" := VStr (email user);
     "password" := VStr (password user) ]}.

(** Modelled from the spec: the public record shape
    {id, first_name, last_name, email, created_at, updated_at} of
    core/schemas/user.py, which is not part of the sources. *)
Definition UserOut : list string :=
  ["id"; "first_name"; "last_name"; "email"; "created_at"; "updated_at"].

(** What [response_model=schema] keeps of a returned row or dict. *)
Definition response_model (schema : list string) (r : row) : row :=
  filter (λ kv, kv.1 ∈ schema) r.

(** [s.encode("utf-8")] *)
Definition encode_utf8 (s : string) : list byte := list_byte_of_string s.

Record Response := { response_status_code : Z }.

(** [id: int = Path(..., gt=0)] *)
Definition Path_gt_0 (id : Z) : M unit :=
  if decide (0 < id)%Z then mret () else raise (RequestValidationError "id").

(** ** The router (src/v1/routes/user.py) *)

(** [from urllib import response] (line 4): the module object that the name
    [response] denotes wherever no local of that name is bound. *)
Definition response : module := Module_ "urllib.response".

Section Router.
Context `{Backend}.

(** The 32 bytes behind [key = Fernet.generate_key()] (line 22): one key
    for the life of a process. *)
Variable key : list byte.

Definition fernet : Fernet := Fernet_init key.

(** [f.encrypt(data)]: the token of [data] at the current time under a
    fresh initialisation vector. *)
Definition Fernet_encrypt (f : Fernet) (ev : env) (data : list byte)
    : list byte :=
  _encrypt_from_parts f data (time_time ev) (os_urandom ev).

(** POST /users (lines 33-58).  [insert_fault] and [select_fault] are the
    failures, if any, of the driver on the statements of lines 54 and 56. *)
Definition signup_with (insert_fault select_fault : option sqlalchemy_exc)
    (ev : env) (user : CreateUser) : M (option row) :=
  let new_user := dict user in
  let new_user :=
    <["password" :=
        VBytes (Fernet_encrypt fernet ev (encode_utf8 (password user)))]>
      new_user in
  _ ← execute_with insert_fault ev (Insert new_user);
  e ← getitem new_user "email";
  res ← fetchone
          <$> execute_with select_fault ev (Select (Some ("email", e)));
  mret res.

(** GET /users (lines 70-89); here [response] is a local.  [fault] is the
    failure, if any, of the driver on the statement of line 87. *)
Definition get_all_users_with (fault : option sqlalchemy_exc) (ev : env)
    : M (list row) :=
  response ← fetchall <$> execute_with fault ev (Select None);
  mret response.

(** GET /users/{id} (lines 100-134); the test of line 128 is on the name
    [response], which this function never binds.  [fault] is the failure,
    if any, of the driver on the statement of line 126. *)
Definition get_user_with (fault : option sqlalchemy_exc) (ev : env) (id : Z)
    : M (option row) :=
  _ ← Path_gt_0 id;
  res ← fetchone
          <$> execute_with fault ev (Select (Some ("id", VInt id)));
  if is_None response
  then raise (HTTPException HTTP_404_NOT_FOUND "User not found")
  else mret res.

(** The [except IntegrityError as e] clause of lines 199-209; any other
    exception is not caught. *)
Definition update_user_except (user : CreateUser) (e : exn) : M (list row) :=
  match e with
  | SQLAlchemyError (IntegrityError _ as e) =>
      if str_in "Duplicate entry" (str_exc e)
         && str_in "users.email" (str_exc e)
      then raise (HTTPException HTTP_409_CONFLICT
                    ("Email " +:+ email user +:+ " already exist!"))
      else raise (HTTPException HTTP_500_INTERNAL_SERVER_ERROR
                    "Internal server error.")
  | _ => raise e
  end.

(** PUT /users/{id} (lines 145-213).  [select_fault] is the failure, if
    any, of the driver on the statement of line 174, and [fault] its
    failure on the UPDATE statement of line 198, the one statement the
    router guards. *)
Definition update_user_with (select_fault fault : option sqlalchemy_exc)
    (ev : env) (id : Z) (user : CreateUser) : M row :=
  _ ← Path_gt_0 id;
  res ← fetchone
          <$> execute_with select_fault ev (Select (Some ("id", VInt id)));
  match res with
  | None => raise (HTTPException HTTP_404_NOT_FOUND "User not found")
  | Some res =>
      let updated_user := dict user ∪ res in
      let updated_user :=
        <["password" :=
            VBytes (Fernet_encrypt fernet ev (encode_utf8 (password user)))]>
          updated_user in
      _ ← try_except
            (execute_with fault ev (Update ("id", VInt id) updated_user))
            (update_user_except user);
      let updated_user :=
        <["updated_at" := VStr (str_datetime (utcnow ev))]> updated_user in
      mret updated_user
  end.

(** DELETE /users/{id} (lines 223-262).  [select_fault] and [delete_fault]
    are the failures, if any, of the driver on the statements of lines 245
    and 260. *)
Definition delete_user_with
    (select_fault delete_fault : option sqlalchemy_exc) (ev : env) (id : Z)
    : M Response :=
  _ ← Path_gt_0 id;
  user_response ←
    fetchone
      <$> execute_with select_fault ev (Select (Some ("id", VInt id)));
  if is_None user_response
  then raise (HTTPException HTTP_404_NOT_FOUND "User not found")
  else
    _ ← execute_with delete_fault ev (Delete ("id", VInt id));
    mret {| response_status_code := HTTP_204_NO_CONTENT |}.

(** *** The path operations on a driver that works

    The driver fails on no statement; [update_user] keeps the failure on
    its guarded statement as a parameter. *)

Definition signup : env → CreateUser → M (option row) :=
  signup_with None None.

Definition get_all_users : env → M (list row) := get_all_users_with None.

Definition get_user : env → Z → M (option row) := get_user_with None.

Definition update_user (fault : option sqlalchemy_exc)
    : env → Z → CreateUser → M row :=
  update_user_with None fault.

Definition delete_user : env → Z → M Response := delete_user_with None None.

(** ** Rows written by the router *)

(** The row [signup] hands to the insert, completed by the defaults. *)
Definition signup_row (ev : env) (user : CreateUser) (s : store) : row :=
  <["password" :=
      VBytes (Fernet_encrypt fernet ev (encode_utf8 (password user)))]>
    (dict user)
  ∪ column_defaults (utcnow ev) s.

(** The dict [update_user] hands to the update, for the row [res] it read. *)
Definition update_values (ev : env) (user : CreateUser) (res : row) : row :=
  <["password" :=
      VBytes (Fernet_encrypt fernet ev (encode_utf8 (password user)))]>
    (dict user ∪ res).

(** The table after the update of [update_user], as the connection computes
    it. *)
Definition updated_rows (ev : env) (id : Z) (user : CreateUser)
    (res : row) (rs : list row) : list row :=
  (λ r : row,
     if matches ("id", VInt id) r then update_values ev user res ∪ r
     else r) <$> rs.

(** ** Requests *)

(** A request, with the failures of the driver on the statements it
    executes. *)
Inductive request :=
| POST_users (insert_fault select_fault : option sqlalchemy_exc)
    (user : CreateUser)
| GET_users (fault : option sqlalchemy_exc)
| GET_user (fault : option sqlalchemy_exc) (id : Z)
| PUT_user (select_fault fault : option sqlalchemy_exc) (id : Z)
    (user : CreateUser)
| DELETE_user (select_fault delete_fault : option sqlalchemy_exc) (id : Z).

(** The table a request leaves behind. *)
Definition serve (ev : env) (rq : request) (s : store) : store :=
  match rq with
  | POST_users f1 f2 user => (signup_with f1 f2 ev user s).2
  | GET_users f => (get_all_users_with f ev s).2
  | GET_user f id => (get_user_with f ev id s).2
  | PUT_user f1 f2 id user => (update_user_with f1 f2 ev id user s).2
  | DELETE_user f1 f2 id => (delete_user_with f1 f2 ev id s).2
  end.

(** The body of a request that has one. *)
Definition body (rq : request) : option CreateUser :=
  match rq with
  | POST_users _ _ user | PUT_user _ _ _ user => Some user
  | _ => None
  end.

End Router.

(** ** Reachable tables *)

(** The tables the router produces from the empty one.  A table outlives
    the process that wrote to it, and every process draws its own key: each
    request is served under a key of its own. *)
Inductive reachable `{Backend} : store → Prop :=
| reachable_empty : reachable empty_store
| reachable_serve key ev rq s : reachable s → reachable (serve key ev rq s).

(** A stored record as the data model wants it, [pw] being the password
    that was supplied for it: an email that is not null, and a password
    that is not empty and is a token of [pw], made by the cipher under the
    key of some process. *)
Definition row_ok `{Backend} (pw : string) (r : row) : Prop :=
  (∃ e, r !! "email" = Some (VStr e))
  ∧ ∃ tok, r !! "password" = Some (VBytes tok)
           ∧ tok ≠ []
           ∧ ∃ k t iv,
               tok = _encrypt_from_parts (Fernet_init k) (encode_utf8 pw) t iv.

Definition row_id (r : row) : option Z :=
  match r !! "id" with
  | Some (VInt i) => Some i
  | _ => None
  end.

(** The records a request has written, by id: the rows of the table after
    it that are not rows of the table before it, each with the password of
    the body of the request. *)
Definition written (user : CreateUser) (s s' : store) : list (Z * string) :=
  omap (λ r : row,
          if decide (r ∈ rows s) then None
          else (λ i, (i, password user)) <$> row_id r)
       (rows s').

(** The password last supplied for each id, after one more request. *)
Definition record_supplied (rq : request) (s s' : store)
    (log : gmap Z string) : gmap Z string :=
  match body rq with
  | Some user => list_to_map (written user s s') ∪ log
  | None => log
  end.

(** The tables the router produces from the empty one, each with the
    passwords that the requests supplied, by id of the record written. *)
Inductive history `{Backend} : store → gmap Z string → Prop :=
| history_empty : history empty_store ∅
| history_serve key ev rq s log :
    history s log →
    history (serve key ev rq s)
            (record_supplied rq s (serve key ev rq s) log).

(** What every table the router produces satisfies: the two constraints and
    ids below the counter. *)
Definition invariant (s : store) : Prop :=
  NoDup (ids (rows s))
  ∧ NoDup (emails (rows s))
  ∧ Forall (λ r : row, ∃ i, r !! "id" = Some (VInt i)
                            ∧ (i < auto_increment s)%Z) (rows s).

(** ** Error kinds *)

Inductive error_kind := ValidationError | NotFound | Conflict | InternalError.

(** The kind of error the caller of a path operation observes.  The router
    chooses the status of an [HTTPException]; the framework answers a failed
    [Path] or [Body] validation with 422 and any other exception that leaves
    the path operation with 500. *)
Definition surfaced (e : exn) : error_kind :=
  match e with
  | HTTPException c _ =>
      if (c =? 404)%Z then NotFound
      else if (c =? 409)%Z then Conflict
      else if (c =? 422)%Z then ValidationError
      else InternalError
  | RequestValidationError _ => ValidationError
  | SQLAlchemyError _ | KeyError _ => InternalError
  end.

(** A backend that computes, for evaluating the router on concrete requests:
    the block cipher is replaced by the identity and the tag is empty. *)
Definition plain_backend : Backend :=
  {| aes128_cbc_encrypt := λ _ _ data, data; hmac_sha256 := λ _ _, [] |}.

(** ** Predicates on tables *)

(** The constraints of the table: [id] is the primary key and [email] is
    unique. *)
Definition constraints (s : store) : Prop :=
  NoDup (ids (rows s)) ∧ NoDup (emails (rows s)).

(** The storage error that the handler of [update_user] reads as a
    duplicate email. *)
Definition is_duplicate_email (e : sqlalchemy_exc) : bool :=
  match e with
  | IntegrityError m => str_in "Duplicate entry" m && str_in "users.email" m
  | DBAPIError _ => false
  end.

(** The columns [update_user] takes from the request body or sets itself. *)
Definition mutable_columns : list string :=
  ["first_name"; "last_name"; "email"; "password"; "updated_at"].

(** The columns of a stored record. *)
Definition columns : list string :=
  ["id"; "first_name"; "last_name"; "email"; "password"; "created_at";
   "updated_at"].

(** A record with every column of the table, each holding a value of its
    type, the id positive, and nothing besides. *)
Definition row_complete (r : row) : Prop :=
  (∃ i, r !! "id" = Some (VInt i) ∧ (0 < i)%Z)
  ∧ (∃ x, r !! "first_name" = Some (VStr x))
  ∧ (∃ x, r !! "last_name" = Some (VStr x))
  ∧ (∃ x, r !! "email" = Some (VStr x))
  ∧ (∃ x, r !! "password" = Some (VBytes x))
  ∧ (∃ x, r !! "created_at" = Some (VDatetime x))
  ∧ (∃ x, r !! "updated_at" = Some (VDatetime x))
  ∧ ∀ k, k ∉ columns → r !! k = None.

(** ** Sample requests *)

Definition dt (y mo d h mi s us : N) : datetime :=
  {| year := y; month := mo; day := d; hour := h; minute := mi; second := s;
     microsecond := us |}.

Definition monday : env :=
  {| utcnow := dt 2022 5 2 9 0 0 271828; time_time := 1651482000;
     os_urandom := replicate 16 Byte.x00 |}.

Definition tuesday : env :=
  {| utcnow := dt 2022 5 3 9 0 7 314159; time_time := 1651568407;
     os_urandom := replicate 16 Byte.x01 |}.

Definition ada : CreateUser :=
  {| first_name := "Ada"; last_name := "Lovelace";
     email := "ada@example.com"; password := "analytical" |}.

Definition bob : CreateUser :=
  {| first_name := "Bob"; last_name := "Noyce";
     email := "bob@example.com"; password := "planar" |}.

Definition cyd : CreateUser :=
  {| first_name := "Cyd"; last_name := "Hopper";
     email := "cyd@example.com"; password := "cobol" |}.

(** Ada's record as her signup on Monday stores it, the cipher running on
    [plain_backend] under the empty key. *)
Definition ada_row : row :=
  signup_row (H:=plain_backend) [] monday ada empty_store.

(** The table after Ada, and then Bob, signed up on Monday. *)
Definition one_user : store :=
  serve (H:=plain_backend) [] monday (POST_users None None ada) empty_store.

Definition two_users : store :=
  serve (H:=plain_backend) [] monday (POST_users None None bob) one_user.

(** The passwords supplied to that table: Ada's for id 1, Bob's for id 2. *)
Definition one_user_log : gmap Z string :=
  record_supplied (POST_users None None ada) empty_store one_user ∅.

Definition two_users_log : gmap Z string :=
  record_supplied (POST_users None None bob) one_user two_users one_user_log.

(** Ada's record updated on Tuesday with the body of Cyd, and the dict the
    update returns. *)
Definition ada_as_cyd : outcome row * store :=
  update_user (H:=plain_backend) [] None tuesday 1 cyd two_users.

Definition ada_as_cyd_dict : row :=
  <["updated_at" := VStr (str_datetime (utcnow tuesday))]>
    (update_values (H:=plain_backend) [] tuesday cyd ada_row).

(** Ada's record as the update with the body of Cyd stores it. *)
Definition cyd_row : row :=
  update_values (H:=plain_backend) [] tuesday cyd ada_row.

(** A failure of the driver that is not an integrity error. *)
Definition lost_connection : sqlalchemy_exc :=
  DBAPIError "(2013, 'Lost connection to MySQL server during query')".

(** * Properties *)

(** ** The monad and the connection *)

Ltac unfold_M :=
  unfold execute_with, Path_gt_0, getitem, fetchone, fetchall in *;
  unfold mbind, M_bind, fmap, M_fmap, mret, M_ret, raise, try_except in *.

Lemma head_filter_elem {A} (P : A → Prop) `{∀ x, Decision (P x)} l x :
  head (filter P l) = Some x → x ∈ l ∧ P x.
Proof.
  intros Hh. apply head_Some_elem_of in Hh.
  by apply list_elem_of_filter in Hh as [? ?].
Qed.

Lemma matches_id (r : row) (id : Z) :
  matches ("id", VInt id) r = true ↔ r !! "id" = Some (VInt id).
Proof. unfold matches. simpl. by rewrite bool_decide_eq_true. Qed.

Lemma matches_email (r : row) (e : string) :
  matches ("email", VStr e) r = true ↔ r !! "email" = Some (VStr e).
Proof. unfold matches. simpl. by rewrite bool_decide_eq_true. Qed.

Lemma emails_app rs1 rs2 : emails (rs1 ++ rs2) = emails rs1 ++ emails rs2.
Proof. unfold emails. by rewrite fmap_app. Qed.

Lemma ids_app rs1 rs2 : ids (rs1 ++ rs2) = ids rs1 ++ ids rs2.
Proof. unfold ids. by rewrite fmap_app. Qed.

Lemma elem_of_emails (r : row) rs : r ∈ rs → r !! "email" ∈ emails rs.
Proof.
  intros Hr. unfold emails.
  by apply (list_elem_of_fmap_2 (λ r : row, r !! "email")).
Qed.

Lemma elem_of_ids (r : row) rs : r ∈ rs → r !! "id" ∈ ids rs.
Proof.
  intros Hr. unfold ids.
  by apply (list_elem_of_fmap_2 (λ r : row, r !! "id")).
Qed.

Lemma filter_none {A} (P : A → Prop) `{∀ x, Decision (P x)} (l : list A) :
  (∀ x, x ∈ l → ¬ P x) → filter P l = [].
Proof.
  intros Hall. induction l as [|y l IH]; [done|].
  rewrite filter_cons. destruct (decide (P y)) as [HP|HP].
  - exfalso. eapply Hall; [left|done].
  - apply IH. intros x Hx. apply Hall. by right.
Qed.

(** The row an insert of the signup dict stores. *)
Lemma signup_row_columns (user : CreateUser) tok now s :
  let r := <["password" := VBytes tok]> (dict user) ∪ column_defaults now s in
  r !! "id" = Some (VInt (auto_increment s))
  ∧ r !! "first_name" = Some (VStr (first_name user))
  ∧ r !! "last_name" = Some (VStr (last_name user))
  ∧ r !! "email" = Some (VStr (email user))
  ∧ r !! "password" = Some (VBytes tok)
  ∧ r !! "created_at" = Some (VDatetime now)
  ∧ r !! "updated_at" = Some (VDatetime now).
Proof. repeat split; reflexivity. Qed.

Lemma response_model_lookup schema (r : row) k :
  response_model schema r !! k = if decide (k ∈ schema) then r !! k else None.
Proof.
  unfold response_model. destruct (r !! k) as [v|] eqn:Hk.
  - destruct (decide (k ∈ schema)) as [Hin|Hin].
    + by apply map_lookup_filter_Some.
    + apply map_lookup_filter_None. right. intros v' Hv'. simpl. done.
  - assert (filter (λ kv : string * value, kv.1 ∈ schema) r !! k = None) as ->.
    { apply map_lookup_filter_None. by left. }
    by destruct (decide (k ∈ schema)).
Qed.

Lemma str_in_cons n c s : str_in n s = true → str_in n (String c s) = true.
Proof. intros Hs. cbn [str_in]. rewrite Hs. apply orb_true_r. Qed.

Lemma str_in_app_r n a b : str_in n b = true → str_in n (a +:+ b) = true.
Proof.
  intros Hb. induction a as [|c a IH]; [done|].
  change (String c a +:+ b) with (String c (a +:+ b)). by apply str_in_cons.
Qed.

(** The handler of [update_user] recognises the uniqueness error of the
    connection, whatever the email. *)
Lemma is_duplicate_email_duplicate_entry r :
  is_duplicate_email (duplicate_entry r) = true.
Proof.
  unfold is_duplicate_email, duplicate_entry. apply andb_true_iff. split.
  - reflexivity.
  - change ("Duplicate entry '" +:+ email_str r +:+ "' for key 'users.email'")
      with ("Duplicate entry '"
            +:+ (email_str r +:+ "' for key 'users.email'")).
    apply str_in_app_r, str_in_app_r. reflexivity.
Qed.

Lemma filter_all {A} (P : A → Prop) `{∀ x, Decision (P x)} (l : list A) :
  (∀ x, x ∈ l → P x) → filter P l = l.
Proof.
  intros Hall. induction l as [|y l IH]; [done|].
  rewrite filter_cons_True by (apply Hall; left).
  f_equal. apply IH. intros x Hx. apply Hall. by right.
Qed.

Lemma Forall_sublist {A} (P : A → Prop) (l1 l2 : list A) :
  l1 `sublist_of` l2 → Forall P l2 → Forall P l1.
Proof.
  intros Hsub Hall. apply Forall_forall. intros x Hx.
  rewrite Forall_forall in Hall. apply Hall. by eapply elem_of_sublist.
Qed.

Lemma fmap_unmatched (w : clause) (f : row → row) (l : list row) :
  (∀ r, r ∈ l → matches w r = false) →
  (λ r : row, if matches w r then f r else r) <$> l = l.
Proof.
  intros Hall. induction l as [|y l IH]; [done|].
  rewrite fmap_cons, (Hall y) by left.
  f_equal. apply IH. intros r Hr. apply Hall. by right.
Qed.

(** Under the primary key, the row with a given id is the only one the
    clause [id == i] selects. *)
Lemma primary_key_others id (res : row) l1 l2 :
  NoDup (ids (l1 ++ res :: l2)) →
  res !! "id" = Some (VInt id) →
  ∀ r, r ∈ l1 ++ l2 → matches ("id", VInt id) r = false.
Proof.
  intros Hnd Hres r Hr.
  destruct (matches ("id", VInt id) r) eqn:Hm; [|done]. exfalso.
  apply matches_id in Hm.
  rewrite ids_app in Hnd. simpl in Hnd. rewrite Hres in Hnd.
  apply NoDup_app in Hnd as (_ & Hdisj & Hnd2).
  apply NoDup_cons in Hnd2 as [Hnotin _].
  apply elem_of_app in Hr as [Hr|Hr]; apply elem_of_ids in Hr;
    rewrite Hm in Hr.
  - apply (Hdisj _ Hr). left.
  - by apply Hnotin.
Qed.

Section Split.
Context (id : Z) (res : row) (l1 l2 : list row).
Hypothesis Hkey : NoDup (ids (l1 ++ res :: l2)).
Hypothesis Hres : res !! "id" = Some (VInt id).

Lemma select_id_split :
  filter (λ r, matches ("id", VInt id) r) (l1 ++ res :: l2) = [res].
Proof.
  pose proof (primary_key_others id res l1 l2 Hkey Hres) as Hothers.
  rewrite filter_app, filter_cons_True
    by (by apply Is_true_true, matches_id).
  rewrite !filter_none; [done| |].
  - intros r Hr Hm. apply Is_true_true in Hm.
    rewrite Hothers in Hm; [done|]. apply elem_of_app. by right.
  - intros r Hr Hm. apply Is_true_true in Hm.
    rewrite Hothers in Hm; [done|]. apply elem_of_app. by left.
Qed.

Lemma delete_id_split :
  filter (λ r, negb (matches ("id", VInt id) r)) (l1 ++ res :: l2) = l1 ++ l2.
Proof.
  pose proof (primary_key_others id res l1 l2 Hkey Hres) as Hothers.
  assert (matches ("id", VInt id) res = true) as Hm by by apply matches_id.
  rewrite filter_app, filter_cons_False by (rewrite Hm; simpl; tauto).
  rewrite !filter_all; [done| |].
  - intros r Hr. rewrite Hothers; [done|]. apply elem_of_app. by right.
  - intros r Hr. rewrite Hothers; [done|]. apply elem_of_app. by left.
Qed.

Lemma update_id_split (f : row → row) :
  (λ r : row, if matches ("id", VInt id) r then f r else r)
    <$> (l1 ++ res :: l2)
  = l1 ++ f res :: l2.
Proof.
  pose proof (primary_key_others id res l1 l2 Hkey Hres) as Hothers.
  assert (matches ("id", VInt id) res = true) as Hm by by apply matches_id.
  rewrite fmap_app, fmap_cons, Hm.
  rewrite !fmap_unmatched; [done| |].
  - intros r Hr. apply Hothers, elem_of_app. by right.
  - intros r Hr. apply Hothers, elem_of_app. by left.
Qed.

End Split.

(** Under the primary key, two stored rows with the same id are one row. *)
Lemma same_id_same_row (rs : list row) (r r' : row) :
  NoDup (ids rs) → r ∈ rs → r' ∈ rs → r !! "id" = r' !! "id" → r = r'.
Proof.
  intros Hnd Hr Hr' Hid.
  apply list_elem_of_lookup in Hr as [i Hi].
  apply list_elem_of_lookup in Hr' as [j Hj].
  assert (ids rs !! i = Some (r !! "id")) as Hi'
    by (unfold ids; by rewrite list_lookup_fmap, Hi).
  assert (ids rs !! j = Some (r !! "id")) as Hj'
    by (unfold ids; by rewrite list_lookup_fmap, Hj, Hid).
  pose proof (NoDup_lookup _ _ _ _ Hnd Hi' Hj') as ->. congruence.
Qed.

(** Replacing one row of a table whose emails are unique keeps them unique
    exactly when no other row has the new email. *)
Lemma unique_email_replace l1 (r d : row) l2 :
  NoDup (emails (l1 ++ r :: l2)) →
  unique_email (l1 ++ d :: l2) = true ↔ d !! "email" ∉ emails (l1 ++ l2).
Proof.
  intros Hnd. unfold unique_email. rewrite bool_decide_eq_true.
  rewrite !emails_app in *. simpl in *.
  apply NoDup_app in Hnd as (Hnd1 & Hdisj & Hnd2).
  apply NoDup_cons in Hnd2 as [Hr Hnd2].
  rewrite NoDup_app, NoDup_cons, not_elem_of_app. split.
  - intros (_ & Hdisj' & Hd & _). split; [|done].
    intros Hin. apply (Hdisj' _ Hin). left.
  - intros [Hd1 Hd2]. split_and!; try done.
    intros x Hx Hx'. apply elem_of_cons in Hx' as [->|Hx']; [done|].
    apply (Hdisj _ Hx). by right.
Qed.

(** *** The cipher *)

Section Base64Facts.
Local Open Scope N_scope.

Lemma index_char n : n < 64 → Base64.index (Base64.char n) = Some n.
Proof.
  intros Hn. rewrite <- (N2Nat.id n).
  assert (N.to_nat n < 64)%nat as Hm by lia.
  generalize dependent (N.to_nat n). clear Hn n. intros m Hm.
  do 64 (destruct m as [|m]; [reflexivity|]). lia.
Qed.

Lemma char_inj n m :
  n < 64 → m < 64 → Base64.char n = Base64.char m → n = m.
Proof.
  intros Hn Hm Heq. apply index_char in Hn, Hm. rewrite Heq in Hn.
  congruence.
Qed.

Lemma char_not_pad n : n < 64 → Base64.char n ≠ Base64.pad.
Proof. intros Hn Heq. apply index_char in Hn. by rewrite Heq in Hn. Qed.

Lemma sextet_inj i q q' :
  Base64.sextet i q = Base64.sextet i q' →
  (q / 64 ^ i) mod 64 = (q' / 64 ^ i) mod 64.
Proof. apply char_inj; by apply N.mod_lt. Qed.

Lemma sextet_not_pad i q : Base64.sextet i q ≠ Base64.pad.
Proof. apply char_not_pad. by apply N.mod_lt. Qed.

Lemma div_mod_64_inj a b : a / 64 = b / 64 → a mod 64 = b mod 64 → a = b.
Proof.
  intros Hd Hm. rewrite (N.div_mod a 64), (N.div_mod b 64) by done.
  by rewrite Hd, Hm.
Qed.

(** The sextets of two quanta agree from the leading one downwards: so do
    the quanta, up to the bits of the sextets not compared. *)
Section Sextets.
Context (q q' : N).
Hypothesis Hq : q < 16777216.
Hypothesis Hq' : q' < 16777216.
Hypothesis H3 : Base64.sextet 3 q = Base64.sextet 3 q'.
Hypothesis H2 : Base64.sextet 2 q = Base64.sextet 2 q'.

Lemma sextets_32 : q / 4096 = q' / 4096.
Proof.
  pose proof (sextet_inj _ _ _ H3) as E3.
  pose proof (sextet_inj _ _ _ H2) as E2.
  change (64 ^ 3) with (4096 * 64) in E3. change (64 ^ 2) with 4096 in E2.
  rewrite <- !N.Div0.div_div in E3.
  rewrite !N.mod_small in E3.
  - by apply div_mod_64_inj.
  - do 2 apply N.Div0.div_lt_upper_bound. lia.
  - do 2 apply N.Div0.div_lt_upper_bound. lia.
Qed.

Hypothesis H1 : Base64.sextet 1 q = Base64.sextet 1 q'.

Lemma sextets_321 : q / 64 = q' / 64.
Proof.
  pose proof sextets_32 as E32. pose proof (sextet_inj _ _ _ H1) as E1.
  change 4096 with (64 * 64) in E32. rewrite <- !N.Div0.div_div in E32.
  change (64 ^ 1) with 64 in E1. by apply div_mod_64_inj.
Qed.

Hypothesis H0 : Base64.sextet 0 q = Base64.sextet 0 q'.

Lemma sextets_3210 : q = q'.
Proof.
  pose proof sextets_321 as E321. pose proof (sextet_inj _ _ _ H0) as E0.
  change (64 ^ 0) with 1 in E0. rewrite !N.div_1_r in E0.
  by apply div_mod_64_inj.
Qed.

End Sextets.

Lemma to_N_inj a b : Byte.to_N a = Byte.to_N b → a = b.
Proof.
  intros Heq. pose proof (Byte.of_to_N a) as Ha.
  rewrite Heq, Byte.of_to_N in Ha. congruence.
Qed.

Lemma quantum_bound a b c : Base64.quantum a b c < 16777216.
Proof.
  pose proof (Byte.to_N_bounded a). pose proof (Byte.to_N_bounded b).
  pose proof (Byte.to_N_bounded c). unfold Base64.quantum. lia.
Qed.

Lemma quantum_inj a b c a' b' c' :
  Base64.quantum a b c = Base64.quantum a' b' c' →
  a = a' ∧ b = b' ∧ c = c'.
Proof.
  pose proof (Byte.to_N_bounded a). pose proof (Byte.to_N_bounded b).
  pose proof (Byte.to_N_bounded c). pose proof (Byte.to_N_bounded a').
  pose proof (Byte.to_N_bounded b'). pose proof (Byte.to_N_bounded c').
  unfold Base64.quantum. intros Heq. split_and!; apply to_N_inj; lia.
Qed.

Lemma quantum_div_64 a b :
  Base64.quantum a b Byte.x00 / 64 = Byte.to_N a * 1024 + Byte.to_N b * 4.
Proof.
  unfold Base64.quantum. change (Byte.to_N Byte.x00) with 0.
  replace (Byte.to_N a * 65536 + Byte.to_N b * 256 + 0)
    with ((Byte.to_N a * 1024 + Byte.to_N b * 4) * 64) by lia.
  by apply N.div_mul.
Qed.

Lemma quantum_div_4096 a :
  Base64.quantum a Byte.x00 Byte.x00 / 4096 = Byte.to_N a * 16.
Proof.
  unfold Base64.quantum. change (Byte.to_N Byte.x00) with 0.
  replace (Byte.to_N a * 65536 + 0 * 256 + 0)
    with ((Byte.to_N a * 16) * 4096) by lia.
  by apply N.div_mul.
Qed.

(** Induction on a list three elements at a time, the way the encoder
    recurses. *)
Lemma list_ind3 {A} (P : list A → Prop) :
  P [] → (∀ a, P [a]) → (∀ a b, P [a; b]) →
  (∀ a b c l, P l → P (a :: b :: c :: l)) →
  ∀ l, P l.
Proof.
  intros H0 H1 H2 H3 l.
  cut (P l ∧ (∀ a, P (a :: l)) ∧ (∀ a b, P (a :: b :: l))); [tauto|].
  induction l as [|x l (IH0 & IH1 & IH2)]; [done|].
  split_and!; [apply IH1|intros a; apply IH2|intros a b; by apply H3].
Qed.

Lemma cons4_inj {A} (a b c d a' b' c' d' : A) l l' :
  a :: b :: c :: d :: l = a' :: b' :: c' :: d' :: l' →
  a = a' ∧ b = b' ∧ c = c' ∧ d = d' ∧ l = l'.
Proof. by intros [= -> -> -> -> ->]. Qed.

(** The encoding is injective: the padding tells the length of the last
    group and the sextets tell its bytes. *)
Lemma urlsafe_b64encode_inj l l' :
  Base64.urlsafe_b64encode l = Base64.urlsafe_b64encode l' → l = l'.
Proof.
  revert l'. induction l as [|a|a b|a b c l IH] using list_ind3;
    intros [|a' [|b' [|c' l']]] Heq; try done; simpl in Heq.
  all: apply cons4_inj in Heq as (E3 & E2 & E1 & E0 & Et).
  all: try (by (symmetry in E1; apply sextet_not_pad in E1)).
  all: try (by (apply sextet_not_pad in E1)).
  all: try (by (symmetry in E0; apply sextet_not_pad in E0)).
  all: try (by (apply sextet_not_pad in E0)).
  - pose proof (sextets_32 _ _ (quantum_bound _ _ _) (quantum_bound _ _ _)
                  E3 E2) as Hq.
    rewrite !quantum_div_4096 in Hq. f_equal. apply to_N_inj. lia.
  - pose proof (sextets_321 _ _ (quantum_bound _ _ _) (quantum_bound _ _ _)
                  E3 E2 E1) as Hq.
    rewrite !quantum_div_64 in Hq.
    pose proof (Byte.to_N_bounded b). pose proof (Byte.to_N_bounded b').
    f_equal; [|f_equal]; apply to_N_inj; lia.
  - pose proof (sextets_3210 _ _ (quantum_bound _ _ _) (quantum_bound _ _ _)
                  E3 E2 E1 E0) as Hq.
    apply quantum_inj in Hq as (-> & -> & ->).
    do 3 f_equal. by apply IH.
Qed.

End Base64Facts.

Lemma urlsafe_b64encode_nonempty l :
  l ≠ [] → Base64.urlsafe_b64encode l ≠ [].
Proof. by destruct l as [|a [|b [|c rest]]]. Qed.

Lemma to_bytes_big_length len n : length (to_bytes_big len n) = len.
Proof. induction len as [|len IH]; [done|]. simpl. by rewrite IH. Qed.

Lemma token_nonempty `{Backend} f data t iv :
  _encrypt_from_parts f data t iv ≠ [].
Proof. unfold _encrypt_from_parts. by apply urlsafe_b64encode_nonempty. Qed.

Lemma framed_parts_inj {A} (x x' : A) a a' b b' c c' d d' :
  length a = length a' →
  length b = length b' →
  (x :: a ++ b ++ c) ++ d = (x' :: a' ++ b' ++ c') ++ d' →
  a = a' ∧ b = b'.
Proof.
  intros Ha Hb Heq. rewrite <- !app_comm_cons in Heq. injection Heq as _ Heq.
  rewrite <- !app_assoc in Heq.
  apply app_inj_1 in Heq as [-> Heq]; [|done].
  by apply app_inj_1 in Heq as [-> _].
Qed.

(** A token shows the time and the initialisation vector it was made
    with: they are encoded in the clear, in front of the ciphertext. *)
Lemma token_time_iv `{Backend} f data data' t t' iv iv' :
  length iv = length iv' →
  _encrypt_from_parts f data t iv = _encrypt_from_parts f data' t' iv' →
  to_bytes_big 8 t = to_bytes_big 8 t' ∧ iv = iv'.
Proof.
  intros Hlen Heq. unfold _encrypt_from_parts in Heq. cbv zeta in Heq.
  apply urlsafe_b64encode_inj in Heq.
  refine (framed_parts_inj _ _ _ _ _ _ _ _ _ _ _ Hlen Heq).
  by rewrite !to_bytes_big_length.
Qed.

Section RouterFacts.
Context `{Backend} (key : list byte).

(** What [get_user] does on a valid id: it returns the first row the
    select finds, or [None], and never reaches the raise of line 129. *)
Lemma get_user_returns ev id s :
  (0 < id)%Z →
  get_user ev id s
  = (Return (head (filter (λ r, matches ("id", VInt id) r) (rows s))), s).
Proof.
  intros Hid. unfold get_user, get_user_with. unfold_M.
  destruct (decide (0 < id)%Z); [|done]. reflexivity.
Qed.

(** On an id no record has, that is [None]: nothing is raised. *)
Lemma get_user_absent ev id s :
  (0 < id)%Z →
  (∀ r : row, r ∈ rows s → r !! "id" ≠ Some (VInt id)) →
  get_user ev id s = (Return None, s).
Proof.
  intros Hid Habs. rewrite get_user_returns by done.
  rewrite filter_none; [done|].
  intros r Hr Hm. apply Is_true_true, matches_id in Hm. by apply (Habs r).
Qed.

Lemma signup_run ev user s :
  signup key ev user s =
    if unique_email (rows s ++ [signup_row key ev user s])
    then (Return (head (filter (λ x, matches ("email", VStr (email user)) x)
                          (rows s ++ [signup_row key ev user s]))),
          {| rows := rows s ++ [signup_row key ev user s];
             auto_increment := auto_increment s + 1 |})
    else (Raise (SQLAlchemyError
                   (duplicate_entry (signup_row key ev user s))), s).
Proof.
  unfold signup, signup_with, signup_row. unfold_M.
  destruct (unique_email _); reflexivity.
Qed.

Lemma unique_email_snoc rs (r : row) :
  unique_email (rs ++ [r]) = true
  ↔ NoDup (emails rs) ∧ r !! "email" ∉ emails rs.
Proof.
  unfold unique_email. rewrite bool_decide_eq_true, emails_app.
  rewrite NoDup_app. simpl. split.
  - intros (Hnd & Hdisj & _). split; [done|].
    intros Hin. apply (Hdisj _ Hin). by left.
  - intros [Hnd Hfresh]. split_and!; [done| |apply NoDup_singleton].
    intros x Hx Hx'. apply list_elem_of_singleton in Hx'. by subst.
Qed.

(** [signup] with an email that a stored row already has: the insert
    raises the integrity error of the driver and nothing catches it. *)
Lemma signup_duplicate ev user s :
  Some (VStr (email user)) ∈ emails (rows s) →
  signup key ev user s
  = (Raise (SQLAlchemyError (IntegrityError
       ("Duplicate entry '" +:+ email user +:+ "' for key 'users.email'"))),
     s).
Proof.
  intros Hin. rewrite signup_run.
  destruct (unique_email _) eqn:Hu; [|reflexivity].
  apply unique_email_snoc in Hu as [_ Hfresh]. by destruct Hfresh.
Qed.

(** [signup] with an email no stored row has. *)
Lemma signup_fresh ev user s :
  NoDup (emails (rows s)) →
  Some (VStr (email user)) ∉ emails (rows s) →
  signup key ev user s
  = (Return (Some (signup_row key ev user s)),
     {| rows := rows s ++ [signup_row key ev user s];
        auto_increment := auto_increment s + 1 |}).
Proof.
  intros Hnd Hfresh. rewrite signup_run.
  assert (unique_email (rows s ++ [signup_row key ev user s]) = true) as ->.
  { apply unique_email_snoc. done. }
  rewrite filter_app, (filter_none _ (rows s)).
  - rewrite filter_cons_True; [reflexivity|].
    apply Is_true_true, matches_email. reflexivity.
  - intros x Hx Hm. apply Is_true_true, matches_email in Hm.
    apply Hfresh. rewrite <- Hm. by apply elem_of_emails.
Qed.

Lemma get_user_store ev id s : (get_user ev id s).2 = s.
Proof.
  unfold get_user, get_user_with. unfold_M. by destruct (decide (0 < id)%Z).
Qed.

(** *** update_user *)

Lemma update_values_columns ev user (res : row) :
  let d := update_values key ev user res in
  d !! "first_name" = Some (VStr (first_name user))
  ∧ d !! "last_name" = Some (VStr (last_name user))
  ∧ d !! "email" = Some (VStr (email user))
  ∧ d !! "password"
    = Some (VBytes (Fernet_encrypt (fernet key) ev
                      (encode_utf8 (password user)))).
Proof.
  unfold update_values. repeat split;
    rewrite ?lookup_insert_eq, ?lookup_insert_ne by done;
    try (rewrite lookup_union_l'; [reflexivity|by eexists]).
  reflexivity.
Qed.

Lemma update_values_frame ev user (res : row) k :
  k ∉ ["first_name"; "last_name"; "email"; "password"] →
  update_values key ev user res !! k = res !! k.
Proof.
  intros Hk. rewrite !not_elem_of_cons in Hk. destruct Hk as (?&?&?&?&_).
  unfold update_values. rewrite lookup_insert_ne by congruence.
  rewrite lookup_union_r; [done|].
  unfold dict. rewrite !lookup_insert_ne by congruence.
  by rewrite lookup_singleton_ne by congruence.
Qed.

(** The dict has every column of the row it was merged over, so as the
    values of an update it replaces the row. *)
Lemma update_values_union ev user (res : row) :
  update_values key ev user res ∪ res = update_values key ev user res.
Proof.
  apply map_eq. intros k. rewrite lookup_union.
  destruct (update_values key ev user res !! k) as [v|] eqn:Hk.
  - by destruct (res !! k).
  - unfold update_values in Hk.
    apply lookup_insert_None in Hk as [Hk _].
    apply lookup_union_None in Hk as [_ ->]. reflexivity.
Qed.

Lemma update_user_invalid fault ev id user s :
  ¬ (0 < id)%Z →
  update_user key fault ev id user s = (Raise (RequestValidationError "id"), s).
Proof.
  intros Hid. unfold update_user, update_user_with. unfold_M.
  by destruct (decide (0 < id)%Z).
Qed.

Lemma update_user_absent fault ev id user s :
  (0 < id)%Z →
  head (filter (λ r, matches ("id", VInt id) r) (rows s)) = None →
  update_user key fault ev id user s
  = (Raise (HTTPException HTTP_404_NOT_FOUND "User not found"), s).
Proof.
  intros Hid Hsel. unfold update_user, update_user_with. unfold_M.
  destruct (decide (0 < id)%Z); [|done]. cbv beta iota. by rewrite Hsel.
Qed.

(** The driver fails on the guarded statement. *)
Lemma update_user_fault e ev id user s res :
  (0 < id)%Z →
  head (filter (λ r, matches ("id", VInt id) r) (rows s)) = Some res →
  update_user key (Some e) ev id user s
  = (Raise
       (if is_duplicate_email e
        then HTTPException HTTP_409_CONFLICT
               ("Email " +:+ email user +:+ " already exist!")
        else match e with
             | IntegrityError _ =>
                 HTTPException HTTP_500_INTERNAL_SERVER_ERROR
                   "Internal server error."
             | DBAPIError _ => SQLAlchemyError e
             end),
     s).
Proof.
  intros Hid Hsel. unfold update_user, update_user_with. unfold_M.
  destruct (decide (0 < id)%Z); [|done]. cbv beta iota. rewrite Hsel.
  unfold update_user_except, is_duplicate_email.
  destruct e as [m|m]; [|reflexivity]. unfold str_exc, raise.
  by destruct (str_in "Duplicate entry" m && str_in "users.email" m).
Qed.

(** The driver executes the guarded statement. *)
Lemma update_user_write ev id user s res :
  (0 < id)%Z →
  head (filter (λ r, matches ("id", VInt id) r) (rows s)) = Some res →
  update_user key None ev id user s
  = if unique_email (updated_rows key ev id user res (rows s))
    then (Return (<["updated_at" := VStr (str_datetime (utcnow ev))]>
                    (update_values key ev user res)),
          {| rows := updated_rows key ev id user res (rows s);
             auto_increment := auto_increment s |})
    else (Raise (HTTPException HTTP_409_CONFLICT
                   ("Email " +:+ email user +:+ " already exist!")), s).
Proof.
  intros Hid Hsel. unfold update_user, update_user_with. unfold_M.
  destruct (decide (0 < id)%Z); [|done]. cbv beta iota. rewrite Hsel.
  fold (update_values key ev user res).
  fold (updated_rows key ev id user res (rows s)).
  destruct (unique_email _); [reflexivity|].
  unfold update_user_except.
  pose proof (is_duplicate_email_duplicate_entry
                (update_values key ev user res)) as Hdup.
  unfold is_duplicate_email, duplicate_entry in Hdup.
  unfold duplicate_entry, str_exc. rewrite Hdup. reflexivity.
Qed.

Lemma update_user_run ev id user s l1 res l2 :
  NoDup (ids (rows s)) →
  rows s = l1 ++ res :: l2 →
  res !! "id" = Some (VInt id) →
  (0 < id)%Z →
  update_user key None ev id user s
  = if unique_email (l1 ++ update_values key ev user res :: l2)
    then (Return (<["updated_at" := VStr (str_datetime (utcnow ev))]>
                    (update_values key ev user res)),
          {| rows := l1 ++ update_values key ev user res :: l2;
             auto_increment := auto_increment s |})
    else (Raise (HTTPException HTTP_409_CONFLICT
                   ("Email " +:+ email user +:+ " already exist!")), s).
Proof.
  intros Hkey Hrows Hres Hid. rewrite Hrows in Hkey.
  rewrite (update_user_write ev id user s res); [|done|].
  - unfold updated_rows. rewrite Hrows.
    rewrite (update_id_split id res l1 l2 Hkey Hres).
    by rewrite update_values_union.
  - by rewrite Hrows, (select_id_split id res l1 l2 Hkey Hres).
Qed.

(** A successful [update_user] names its parts: no driver failure, the
    returned dict and the table left behind. *)
Lemma update_user_success fault ev id user s l1 res l2 d s' :
  NoDup (ids (rows s)) →
  rows s = l1 ++ res :: l2 →
  res !! "id" = Some (VInt id) →
  update_user key fault ev id user s = (Return d, s') →
  d = <["updated_at" := VStr (str_datetime (utcnow ev))]>
        (update_values key ev user res)
  ∧ s' = {| rows := l1 ++ update_values key ev user res :: l2;
            auto_increment := auto_increment s |}.
Proof.
  intros Hkey Hrows Hres Hrun.
  destruct (decide (0 < id)%Z) as [Hid|Hid];
    [|by rewrite update_user_invalid in Hrun].
  destruct fault as [e|].
  - rewrite (update_user_fault e ev id user s res) in Hrun; [done|done|].
    rewrite Hrows in Hkey |- *.
    by rewrite (select_id_split id res l1 l2 Hkey Hres).
  - rewrite (update_user_run ev id user s l1 res l2) in Hrun by done.
    destruct (unique_email _); [|done]. by injection Hrun as <- <-.
Qed.

(** What a successful [update_user] does with [updated_at]: the dict it
    returns carries the time of the call, as a string; the row it stored
    carries the value the record had before. *)
Lemma update_user_updated_at fault ev id user s l1 res l2 d s' :
  NoDup (ids (rows s)) →
  rows s = l1 ++ res :: l2 →
  res !! "id" = Some (VInt id) →
  update_user key fault ev id user s = (Return d, s') →
  d !! "updated_at" = Some (VStr (str_datetime (utcnow ev)))
  ∧ ∃ res', rows s' = l1 ++ res' :: l2
            ∧ res' !! "updated_at" = res !! "updated_at".
Proof.
  intros Hkey Hrows Hres Hrun.
  destruct (update_user_success fault ev id user s l1 res l2 d s'
              Hkey Hrows Hres Hrun) as [-> ->].
  split; [apply lookup_insert_eq|].
  eexists. split; [reflexivity|].
  apply update_values_frame.
  rewrite !not_elem_of_cons. split_and!; try done. apply not_elem_of_nil.
Qed.

(** C4: on an existing record, [update_user] fails with Conflict when a
    different record has the new email, succeeds when the new email is the
    record's own, and surfaces as InternalError every failure of the driver
    on the write that is not the duplicate email. *)
Theorem update_user_email_conflict ev id user s res :
  constraints s →
  (0 < id)%Z →
  res ∈ rows s →
  res !! "id" = Some (VInt id) →
  (∀ other : row,
     other ∈ rows s → other ≠ res →
     other !! "email" = Some (VStr (email user)) →
     ∃ e, update_user key None ev id user s = (Raise e, s)
          ∧ surfaced e = Conflict)
  ∧ (res !! "email" = Some (VStr (email user)) →
     ∃ d s', update_user key None ev id user s = (Return d, s'))
  ∧ (∀ fault,
       is_duplicate_email fault = false →
       ∃ e, update_user key (Some fault) ev id user s = (Raise e, s)
            ∧ surfaced e = InternalError).
Proof.
  intros [Hkey Huniq] Hid Hin Hres.
  apply list_elem_of_split in Hin as (l1 & l2 & Hrows).
  pose proof (update_values_columns ev user res) as (_ & _ & Hemail & _).
  rewrite Hrows in Huniq.
  pose proof (unique_email_replace l1 res (update_values key ev user res) l2
                Huniq) as Hrepl.
  rewrite Hemail in Hrepl.
  split_and!.
  - intros other Hother Hne Hmail.
    rewrite (update_user_run ev id user s l1 res l2) by done.
    destruct (unique_email _) eqn:Hu.
    + exfalso. apply (proj1 Hrepl eq_refl). rewrite <- Hmail.
      apply elem_of_emails. rewrite Hrows in Hother.
      rewrite elem_of_app, elem_of_cons in Hother. rewrite elem_of_app.
      destruct Hother as [?|[?|?]]; [by left|done|by right].
    + eexists. split; reflexivity.
  - intros Hown.
    rewrite (update_user_run ev id user s l1 res l2) by done.
    assert (unique_email (l1 ++ update_values key ev user res :: l2) = true)
      as ->; [|by eauto].
    apply Hrepl. rewrite <- Hown. rewrite !emails_app in *. simpl in Huniq.
    apply NoDup_app in Huniq as (_ & Hdisj & Hnd2).
    apply NoDup_cons in Hnd2 as [Hr _].
    rewrite not_elem_of_app. split; [|done].
    intros Hl1. apply (Hdisj _ Hl1). left.
  - intros fault Hfault.
    rewrite (update_user_fault fault ev id user s res); [|done|].
    + rewrite Hfault. eexists. split; [reflexivity|].
      by destruct fault.
    + rewrite Hrows in Hkey |- *.
      by rewrite (select_id_split id res l1 l2 Hkey Hres).
Qed.

(** C5: a successful [update_user] leaves [id] and [created_at] as they
    were, in the stored record and in the returned one; no column outside
    first_name, last_name, email, password and updated_at changes, and no
    other record changes. *)
Theorem update_user_preserves_id_created_at fault ev id user s res d s' :
  constraints s →
  res ∈ rows s →
  res !! "id" = Some (VInt id) →
  update_user key fault ev id user s = (Return d, s') →
  ∃ l1 l2 res',
    rows s = l1 ++ res :: l2
    ∧ rows s' = l1 ++ res' :: l2
    ∧ res' !! "id" = res !! "id"
    ∧ res' !! "created_at" = res !! "created_at"
    ∧ d !! "id" = res !! "id"
    ∧ d !! "created_at" = res !! "created_at"
    ∧ ∀ k, k ∉ mutable_columns → res' !! k = res !! k ∧ d !! k = res !! k.
Proof.
  intros [Hkey _] Hin Hres Hrun.
  apply list_elem_of_split in Hin as (l1 & l2 & Hrows).
  destruct (update_user_success fault ev id user s l1 res l2 d s'
              Hkey Hrows Hres Hrun) as [-> ->].
  exists l1, l2, (update_values key ev user res).
  assert (∀ k, k ∉ mutable_columns →
            update_values key ev user res !! k = res !! k
            ∧ <["updated_at" := VStr (str_datetime (utcnow ev))]>
                (update_values key ev user res) !! k = res !! k) as Hframe.
  { intros k Hk. unfold mutable_columns in Hk.
    rewrite !not_elem_of_cons in Hk. destruct Hk as (?&?&?&?&?&_).
    rewrite lookup_insert_ne by congruence.
    rewrite update_values_frame; [done|].
    rewrite !not_elem_of_cons. split_and!; try done. apply not_elem_of_nil. }
  split_and!; try done; apply Hframe; unfold mutable_columns;
    rewrite !not_elem_of_cons; split_and!; try done; apply not_elem_of_nil.
Qed.

(** C6: [signup] with an email no stored record has succeeds.  It stores
    one new record, after the records that were there, and returns that
    record, the only one the select by its email finds.  The record has the
    email, the first_name and the last_name of the input and, as its
    password, the token of the password of the input; the response the
    schema lets through shows the three fields and no password. *)
Theorem signup_fresh_email ev user s :
  constraints s →
  Some (VStr (email user)) ∉ emails (rows s) →
  ∃ r s',
    signup key ev user s = (Return (Some r), s')
    ∧ rows s' = rows s ++ [r]
    ∧ filter (λ x, matches ("email", VStr (email user)) x) (rows s') = [r]
    ∧ r !! "password"
      = Some (VBytes (Fernet_encrypt (fernet key) ev
                        (encode_utf8 (password user))))
    ∧ response_model UserOut r !! "email" = Some (VStr (email user))
    ∧ response_model UserOut r !! "first_name"
      = Some (VStr (first_name user))
    ∧ response_model UserOut r !! "last_name" = Some (VStr (last_name user))
    ∧ response_model UserOut r !! "password" = None.
Proof.
  intros [_ Huniq] Hfresh.
  exists (signup_row key ev user s). eexists.
  split; [by apply signup_fresh|]. simpl.
  split; [reflexivity|]. split.
  - rewrite filter_app, (filter_none _ (rows s)).
    + rewrite filter_cons_True; [done|].
      apply Is_true_true, matches_email. reflexivity.
    + intros x Hx Hm. apply Is_true_true, matches_email in Hm.
      apply Hfresh. rewrite <- Hm. by apply elem_of_emails.
  - rewrite !response_model_lookup. repeat split.
Qed.

(** *** delete_user *)

Lemma delete_user_run ev id s :
  (0 < id)%Z →
  delete_user ev id s
  = if is_None (head (filter (λ r, matches ("id", VInt id) r) (rows s)))
    then (Raise (HTTPException HTTP_404_NOT_FOUND "User not found"), s)
    else (Return {| response_status_code := HTTP_204_NO_CONTENT |},
          {| rows := filter (λ r, negb (matches ("id", VInt id) r)) (rows s);
             auto_increment := auto_increment s |}).
Proof.
  intros Hid. unfold delete_user, delete_user_with. unfold_M.
  destruct (decide (0 < id)%Z); [|done]. cbv beta iota.
  by destruct (is_None _).
Qed.

(** [delete_user] on an id no record has: NotFound, and the table stays. *)
Lemma delete_user_absent ev id s :
  (0 < id)%Z →
  (∀ r : row, r ∈ rows s → r !! "id" ≠ Some (VInt id)) →
  delete_user ev id s
  = (Raise (HTTPException HTTP_404_NOT_FOUND "User not found"), s).
Proof.
  intros Hid Habs. rewrite delete_user_run by done.
  rewrite filter_none; [done|].
  intros r Hr Hm. apply Is_true_true, matches_id in Hm. by apply (Habs r).
Qed.

(** [delete_user] on the id of a record: that record goes, the others stay
    in their order. *)
Lemma delete_user_existing ev id s l1 res l2 :
  (0 < id)%Z →
  NoDup (ids (rows s)) →
  rows s = l1 ++ res :: l2 →
  res !! "id" = Some (VInt id) →
  delete_user ev id s
  = (Return {| response_status_code := HTTP_204_NO_CONTENT |},
     {| rows := l1 ++ l2; auto_increment := auto_increment s |}).
Proof.
  intros Hid Hkey Hrows Hres. rewrite delete_user_run by done.
  rewrite Hrows in *.
  by rewrite (select_id_split id res l1 l2), (delete_id_split id res l1 l2).
Qed.

(** *** The tables a request leaves behind *)

Lemma updated_rows_ids ev id user (res : row) rs :
  res !! "id" = Some (VInt id) →
  ids (updated_rows key ev id user res rs) = ids rs.
Proof.
  intros Hres. unfold ids, updated_rows. rewrite <- list_fmap_compose.
  apply list_fmap_ext. intros _ r _. simpl.
  destruct (matches ("id", VInt id) r) eqn:Hm; [|done].
  apply matches_id in Hm. rewrite Hm. apply lookup_union_Some_l.
  rewrite update_values_frame; [done|].
  rewrite !not_elem_of_cons. split_and!; try done. apply not_elem_of_nil.
Qed.

Lemma store_eta s :
  s = {| rows := rows s; auto_increment := auto_increment s |}.
Proof. by destruct s. Qed.

(** What [signup] does, whatever the driver does: the insert of line 54 is
    committed before the select of line 56 runs. *)
Lemma signup_with_run f1 f2 ev user s :
  signup_with key f1 f2 ev user s
  = match f1 with
    | Some e => (Raise (SQLAlchemyError e), s)
    | None =>
        if unique_email (rows s ++ [signup_row key ev user s])
        then
          let s' := {| rows := rows s ++ [signup_row key ev user s];
                       auto_increment := auto_increment s + 1 |} in
          match f2 with
          | Some e => (Raise (SQLAlchemyError e), s')
          | None =>
              (Return (head (filter
                               (λ x, matches ("email", VStr (email user)) x)
                               (rows s'))), s')
          end
        else (Raise (SQLAlchemyError
                       (duplicate_entry (signup_row key ev user s))), s)
    end.
Proof.
  unfold signup_with, signup_row. unfold_M.
  destruct f1 as [e1|]; [reflexivity|].
  destruct (unique_email _); [|reflexivity].
  destruct f2 as [e2|]; reflexivity.
Qed.

(** The tables [signup] can leave behind. *)
Lemma signup_with_store f1 f2 ev user s :
  (signup_with key f1 f2 ev user s).2 = s
  ∨ (unique_email (rows s ++ [signup_row key ev user s]) = true
     ∧ (signup_with key f1 f2 ev user s).2
       = {| rows := rows s ++ [signup_row key ev user s];
            auto_increment := auto_increment s + 1 |}).
Proof.
  rewrite signup_with_run. destruct f1 as [e1|]; [by left|].
  destruct (unique_email _); [right|by left].
  split; [done|]. by destruct f2.
Qed.

(** The driver fails on the select of [update_user]. *)
Lemma update_user_with_select_fault e fault ev id user s :
  (0 < id)%Z →
  update_user_with key (Some e) fault ev id user s
  = (Raise (SQLAlchemyError e), s).
Proof.
  intros Hid. unfold update_user_with. unfold_M.
  by destruct (decide (0 < id)%Z).
Qed.

(** The tables [update_user] can leave behind, with the row it read. *)
Lemma update_user_with_store f1 f2 ev id user s :
  (update_user_with key f1 f2 ev id user s).2 = s
  ∨ ∃ res,
      res ∈ rows s
      ∧ res !! "id" = Some (VInt id)
      ∧ unique_email (updated_rows key ev id user res (rows s)) = true
      ∧ (update_user_with key f1 f2 ev id user s).2
        = {| rows := updated_rows key ev id user res (rows s);
             auto_increment := auto_increment s |}.
Proof.
  destruct (decide (0 < id)%Z) as [Hid|Hid].
  2:{ left. unfold update_user_with. unfold_M.
      by destruct (decide (0 < id)%Z). }
  destruct f1 as [e1|];
    [left; by rewrite update_user_with_select_fault|].
  change (update_user_with key None f2 ev id user s)
    with (update_user key f2 ev id user s).
  destruct (head (filter (λ r, matches ("id", VInt id) r) (rows s)))
    as [res|] eqn:Hsel; [|left; by rewrite update_user_absent].
  destruct f2 as [e|];
    [left; by rewrite (update_user_fault e ev id user s res)|].
  rewrite (update_user_write ev id user s res) by done.
  destruct (unique_email _) eqn:Hu; [right|by left].
  exists res. apply head_filter_elem in Hsel as [Hin Hm].
  split_and!; [done| |done|done]. apply matches_id. by apply Is_true_true.
Qed.

(** What [delete_user] does on a valid id, whatever the driver does. *)
Lemma delete_user_with_run f1 f2 ev id s :
  (0 < id)%Z →
  delete_user_with f1 f2 ev id s
  = match f1 with
    | Some e => (Raise (SQLAlchemyError e), s)
    | None =>
        if is_None (head (filter (λ r, matches ("id", VInt id) r) (rows s)))
        then (Raise (HTTPException HTTP_404_NOT_FOUND "User not found"), s)
        else
          match f2 with
          | Some e => (Raise (SQLAlchemyError e), s)
          | None =>
              (Return {| response_status_code := HTTP_204_NO_CONTENT |},
               {| rows := filter (λ r, negb (matches ("id", VInt id) r))
                                 (rows s);
                  auto_increment := auto_increment s |})
          end
    end.
Proof.
  intros Hid. unfold delete_user_with. unfold_M.
  destruct (decide (0 < id)%Z); [|done]. cbv beta iota.
  destruct f1 as [e1|]; [reflexivity|]. cbv beta iota.
  destruct (is_None _); [reflexivity|]. by destruct f2.
Qed.

(** The tables [delete_user] can leave behind. *)
Lemma delete_user_with_store f1 f2 ev id s :
  ∃ rs, rs `sublist_of` rows s
        ∧ (delete_user_with f1 f2 ev id s).2
          = {| rows := rs; auto_increment := auto_increment s |}.
Proof.
  destruct (decide (0 < id)%Z) as [Hid|Hid].
  - rewrite delete_user_with_run by done.
    destruct f1 as [e1|]; [exists (rows s); split; [done|apply store_eta]|].
    destruct (is_None _); [exists (rows s); split; [done|apply store_eta]|].
    destruct f2 as [e2|]; [exists (rows s); split; [done|apply store_eta]|].
    eexists. split; [|reflexivity]. apply sublist_filter.
  - exists (rows s). split; [done|].
    unfold delete_user_with. unfold_M.
    destruct (decide (0 < id)%Z); [done|]. apply store_eta.
Qed.

Lemma get_user_with_store f ev id s : (get_user_with f ev id s).2 = s.
Proof.
  unfold get_user_with. unfold_M.
  destruct (decide (0 < id)%Z); [|done]. by destruct f.
Qed.

Lemma get_all_users_with_store f ev s : (get_all_users_with f ev s).2 = s.
Proof. unfold get_all_users_with. unfold_M. by destruct f. Qed.

(** *** The invariant *)

Lemma invariant_empty : invariant empty_store.
Proof. repeat split; simpl; constructor. Qed.

Lemma invariant_serve ev rq s :
  invariant s → invariant (serve key ev rq s).
Proof.
  intros (Hkey & Huniq & Hbound).
  destruct rq as [f1 f2 user|f|f id|f1 f2 id user|f1 f2 id]; simpl.
  - destruct (signup_with_store f1 f2 ev user s) as [->|[Hu ->]]; [done|].
    pose proof (signup_row_columns user
      (Fernet_encrypt (fernet key) ev (encode_utf8 (password user)))
      (utcnow ev) s) as (Hid & _).
    fold (signup_row key ev user s) in Hid.
    repeat split; simpl.
    + rewrite ids_app. apply NoDup_app. split_and!; [done| |].
      * intros x Hx Hx'. apply list_elem_of_singleton in Hx'. subst x.
        simpl in Hx. rewrite Hid in Hx.
        apply list_elem_of_fmap in Hx as (r & Hr & Hin).
        rewrite Forall_forall in Hbound.
        destruct (Hbound r Hin) as (i & Hi & Hlt).
        rewrite Hi in Hr. injection Hr as Hr. lia.
      * apply NoDup_singleton.
    + by apply bool_decide_eq_true in Hu.
    + apply Forall_app. split.
      * eapply Forall_impl; [exact Hbound|]. intros r (i & Hi & Hlt).
        exists i. split; [done|simpl; lia].
      * apply Forall_singleton. eexists. split; [done|simpl; lia].
  - by rewrite get_all_users_with_store.
  - by rewrite get_user_with_store.
  - destruct (update_user_with_store f1 f2 ev id user s)
      as [->|(res & _ & Hres & Hu & ->)]; [done|].
    repeat split; simpl.
    + by rewrite updated_rows_ids.
    + by apply bool_decide_eq_true in Hu.
    + apply Forall_forall. intros r' Hr'.
      assert (r' !! "id" ∈ ids (updated_rows key ev id user res (rows s)))
        as Hin by by apply elem_of_ids.
      rewrite updated_rows_ids in Hin by done.
      apply list_elem_of_fmap in Hin as (r & Hr & Hin).
      rewrite Forall_forall in Hbound. rewrite Hr. by apply Hbound.
  - destruct (delete_user_with_store f1 f2 ev id s) as (rs & Hsub & ->).
    repeat split; simpl.
    + apply (sublist_NoDup _ _ Hkey). by apply fmap_sublist.
    + apply (sublist_NoDup _ _ Huniq). by apply fmap_sublist.
    + apply (Forall_sublist _ _ _ Hsub Hbound).
Qed.

(** A row of the table after a request was in the table before it, or it
    carries the email of the body of the request and, as its password, what
    the cipher of the process made of the password of the body. *)
Lemma serve_written ev rq s (r' : row) :
  r' ∈ rows (serve key ev rq s) →
  r' ∈ rows s
  ∨ ∃ user,
      body rq = Some user
      ∧ r' !! "email" = Some (VStr (email user))
      ∧ r' !! "password"
        = Some (VBytes (Fernet_encrypt (fernet key) ev
                          (encode_utf8 (password user)))).
Proof.
  destruct rq as [f1 f2 user|f|f id|f1 f2 id user|f1 f2 id]; simpl.
  - destruct (signup_with_store f1 f2 ev user s) as [->|[_ ->]];
      [by left|]. simpl. intros [Hr|Hr]%elem_of_app; [by left|].
    apply list_elem_of_singleton in Hr as ->. right. by exists user.
  - rewrite get_all_users_with_store. by left.
  - rewrite get_user_with_store. by left.
  - destruct (update_user_with_store f1 f2 ev id user s)
      as [->|(res & _ & _ & _ & ->)]; [by left|]. simpl.
    unfold updated_rows. intros (r & -> & Hr)%list_elem_of_fmap.
    destruct (matches _ r); [right|by left].
    pose proof (update_values_columns ev user res) as (_ & _ & He & Hp).
    exists user. split_and!; [done|by apply lookup_union_Some_l..].
  - destruct (delete_user_with_store f1 f2 ev id s) as (rs & Hsub & ->).
    simpl. intros Hr. left. by eapply elem_of_sublist.
Qed.

(** *** The router on sample requests *)

(** C1: the same body signed up twice.  The first call returns the stored
    row; the second raises the integrity error of the driver, which nothing
    in [signup] catches, so the caller sees an internal error and not a
    conflict. *)
Theorem signup_same_email_twice ev ev' user :
  let first := signup key ev user empty_store in
  let second := signup key ev' user first.2 in
  first.1 = Return (Some (signup_row key ev user empty_store))
  ∧ second
    = (Raise (SQLAlchemyError (IntegrityError
         ("Duplicate entry '" +:+ email user
          +:+ "' for key 'users.email'"))),
       first.2)
  ∧ (∀ e, second.1 = Raise e → surfaced e = InternalError).
Proof.
  cbv zeta.
  rewrite (signup_fresh ev user empty_store)
    by (simpl; first [apply NoDup_nil_2 | apply not_elem_of_nil]).
  split; [done|].
  rewrite signup_duplicate.
  - split; [done|]. by intros e [= <-].
  - change (Some (VStr (email user)))
      with (signup_row key ev user empty_store !! "email").
    apply elem_of_emails. simpl. left.
Qed.

(** C2: [get_user] on an id that no record has returns [None]; the 404 of
    line 129 is behind a test on the module [response] and is never
    raised. *)
Theorem get_user_absent_id ev :
  get_user ev 1 empty_store = (Return None, empty_store).
Proof. reflexivity. Qed.

(** C3: a record created at one time and updated at another, whatever the
    times and the bodies.  The response carries the time of the update as
    [updated_at]; the stored record still carries the time of the creation,
    because line 211 sets the field after the write of line 198. *)
Theorem update_user_updated_at_not_stored ev ev' user user' :
  let created := signup key ev user empty_store in
  let updated := update_user key None ev' 1 user' created.2 in
  (returned updated.1 ≫= (λ d : row, d !! "updated_at"))
  = Some (VStr (str_datetime (utcnow ev')))
  ∧ (λ r : row, r !! "updated_at") <$> rows updated.2
    = [Some (VDatetime (utcnow ev))]
  ∧ (returned (get_user ev' 1 updated.2).1
       ≫= (λ res : option row, res ≫= (λ r, r !! "updated_at")))
    = Some (VDatetime (utcnow ev)).
Proof. cbv zeta. split_and!; reflexivity. Qed.

(** C7: Ada, Bob and Cyd sign up and Bob (id 2) is deleted.  The delete
    answers 204 and leaves Ada and Cyd; the [get_user] that follows returns
    [None] instead of raising NotFound. *)
Theorem delete_user_then_get_user :
  let s1 := (signup key monday ada empty_store).2 in
  let s2 := (signup key monday bob s1).2 in
  let s3 := (signup key monday cyd s2).2 in
  let deleted := delete_user tuesday 2 s3 in
  deleted.1 = Return {| response_status_code := HTTP_204_NO_CONTENT |}
  ∧ (returned (get_all_users tuesday deleted.2).1
     = Some [signup_row key monday ada empty_store;
             signup_row key monday cyd s2])
  ∧ get_user tuesday 2 deleted.2 = (Return None, deleted.2).
Proof. cbv zeta. split_and!; reflexivity. Qed.

(** C9, as the code has it: the cipher is not a function of the key and
    the plaintext alone.  With the time and the initialisation vector of the
    call fixed, two encryptions give the same token; two encryptions that
    draw different vectors give different tokens. *)
Theorem fernet_encrypt_fresh_iv ev ev' data :
  length (os_urandom ev) = 16%nat →
  length (os_urandom ev') = 16%nat →
  (time_time ev = time_time ev' → os_urandom ev = os_urandom ev' →
   Fernet_encrypt (fernet key) ev data = Fernet_encrypt (fernet key) ev' data)
  ∧ (os_urandom ev ≠ os_urandom ev' →
     Fernet_encrypt (fernet key) ev data
     ≠ Fernet_encrypt (fernet key) ev' data).
Proof.
  intros Hlen Hlen'. unfold Fernet_encrypt. split.
  - by intros -> ->.
  - intros Hne Heq. apply token_time_iv in Heq as [_ Hiv]; [done|].
    by rewrite Hlen, Hlen'.
Qed.

(** C10: [get_user] and [get_all_users] are pure reads: whatever the table
    and the id, the table after the call is the table before it. *)
Theorem reads_leave_store_unchanged ev id s :
  (get_user ev id s).2 = s ∧ (get_all_users ev s).2 = s.
Proof. split; [apply get_user_store|reflexivity]. Qed.

End RouterFacts.

(** ** Reachable tables *)

Section Reachable.
Context `{Backend}.

Lemma reachable_invariant s : reachable s → invariant s.
Proof.
  induction 1 as [|key ev rq s _ IH]; [apply invariant_empty|].
  by apply invariant_serve.
Qed.

Lemma reachable_constraints s : reachable s → constraints s.
Proof.
  intros Hreach. apply reachable_invariant in Hreach as (Hkey & Hu & _).
  by split.
Qed.

(** The tables with a history are the reachable ones. *)
Lemma history_reachable s log : history s log → reachable s.
Proof.
  induction 1 as [|key ev rq s log _ IH]; [apply reachable_empty|].
  by apply reachable_serve.
Qed.

Lemma reachable_history s : reachable s → ∃ log, history s log.
Proof.
  induction 1 as [|key ev rq s _ [log IH]].
  - exists ∅. apply history_empty.
  - eexists. by apply history_serve.
Qed.

Lemma row_id_Some (r : row) i : row_id r = Some i ↔ r !! "id" = Some (VInt i).
Proof.
  unfold row_id. split.
  - destruct (r !! "id") as [[]|]; naive_solver.
  - by intros ->.
Qed.

(** A row the request has written is recorded with the password of the
    body. *)
Lemma written_new user s s' (r' : row) i :
  r' ∈ rows s' → r' ∉ rows s → row_id r' = Some i →
  (list_to_map (written user s s') : gmap Z string) !! i
  = Some (password user).
Proof.
  intros Hin Hnew Hid.
  assert ((i, password user) ∈ written user s s') as Hw.
  { unfold written. apply list_elem_of_omap. exists r'. split; [done|].
    destruct (decide (r' ∈ rows s)); [done|]. by rewrite Hid. }
  destruct ((list_to_map (written user s s') : gmap Z string) !! i)
    as [v|] eqn:Hl.
  - apply (elem_of_list_to_map_2 (M:=gmap Z)) in Hl.
    unfold written in Hl. apply list_elem_of_omap in Hl as (r & _ & Hr).
    destruct (decide (r ∈ rows s)); [done|].
    destruct (row_id r); simpl in Hr; [|done]. by injection Hr as _ <-.
  - apply (not_elem_of_list_to_map_2 (M:=gmap Z)) in Hl. destruct Hl.
    apply list_elem_of_fmap. by exists (i, password user).
Qed.

(** A row the request has not touched keeps what was recorded for it. *)
Lemma written_old user s s' (r' : row) i :
  NoDup (ids (rows s')) →
  r' ∈ rows s' → r' ∈ rows s → row_id r' = Some i →
  (list_to_map (written user s s') : gmap Z string) !! i = None.
Proof.
  intros Hkey Hin Hold Hid.
  apply (not_elem_of_list_to_map_1 (M:=gmap Z)).
  intros ([j v] & Hj & Hw)%list_elem_of_fmap. simpl in Hj. subst j.
  unfold written in Hw. apply list_elem_of_omap in Hw as (r & Hr & Heq).
  destruct (decide (r ∈ rows s)) as [|Hnew]; [done|].
  destruct (row_id r) as [j|] eqn:Hrid; simpl in Heq; [|done].
  injection Heq as -> _.
  apply row_id_Some in Hid, Hrid.
  assert (r = r') as -> by (apply (same_id_same_row (rows s')); congruence).
  done.
Qed.

Lemma history_rows_ok s log :
  history s log →
  ∀ r : row, r ∈ rows s →
    ∃ i pw, r !! "id" = Some (VInt i) ∧ log !! i = Some pw ∧ row_ok pw r.
Proof.
  induction 1 as [|key ev rq s log Hhist IH]; [by intros r Hr%elem_of_nil|].
  intros r' Hr'.
  pose proof (reachable_invariant s (history_reachable s log Hhist)) as Hinv.
  pose proof (invariant_serve key ev rq s Hinv) as (Hkey' & _ & Hbound').
  rewrite Forall_forall in Hbound'.
  destruct (Hbound' r' Hr') as (i & Hi & _). exists i.
  pose proof (proj2 (row_id_Some r' i) Hi) as Hrid.
  destruct (decide (r' ∈ rows s)) as [Hold|Hnew].
  - destruct (IH r' Hold) as (i0 & pw & Hi0 & Hlog & Hok).
    assert (i0 = i) as -> by congruence.
    exists pw. split_and!; [done| |done].
    unfold record_supplied. destruct (body rq) as [user|]; [|done].
    rewrite lookup_union_r; [done|]. by eapply written_old.
  - destruct (serve_written key ev rq s r' Hr')
      as [?|(user & Hbody & Hemail & Hpw)]; [done|].
    exists (password user). split_and!; [done| |].
    + unfold record_supplied. rewrite Hbody.
      apply lookup_union_Some_l. by eapply written_new.
    + split; [by eexists|]. eexists. split; [done|].
      split; [apply token_nonempty|]. unfold Fernet_encrypt, fernet.
      by eexists _, _, _.
Qed.

(** C8: in every table the router produces, from the empty one, under
    whatever keys and driver failures, emails are unique, and every record
    has an email that is not null and a password that is not empty and is
    the token, made by the cipher, of the password supplied by the request
    that last wrote the record: [signup] and [update_user] write the
    password only as [fernet.encrypt] returned it for the body. *)
Theorem stored_records_invariant s log :
  history s log →
  NoDup (emails (rows s))
  ∧ ∀ r : row, r ∈ rows s →
      ∃ i pw, r !! "id" = Some (VInt i) ∧ log !! i = Some pw ∧ row_ok pw r.
Proof.
  intros Hhist. split; [|by apply history_rows_ok].
  by apply history_reachable, reachable_invariant in Hhist as (_ & Hu & _).
Qed.

End Reachable.

(** ** Instances on the sample requests *)

Lemma two_users_constraints : constraints two_users.
Proof. split; apply (bool_decide_unpack _); vm_compute; exact I. Defined.

Lemma ada_row_stored : ada_row ∈ rows two_users.
Proof. apply (bool_decide_unpack _). vm_compute. exact I. Defined.

Lemma two_users_reachable : reachable (H:=plain_backend) two_users.
Proof.
  unfold two_users, one_user. do 2 apply reachable_serve.
  apply reachable_empty.
Defined.

Lemma two_users_history : history (H:=plain_backend) two_users two_users_log.
Proof.
  unfold two_users_log, one_user_log, two_users, one_user.
  do 2 apply history_serve. apply history_empty.
Defined.

Lemma update_user_email_conflict_witness :
  constraints two_users
  ∧ (0 < 1)%Z
  ∧ ada_row ∈ rows two_users
  ∧ ada_row !! "id" = Some (VInt 1)
  ∧ (∀ other : row,
       other ∈ rows two_users → other ≠ ada_row →
       other !! "email" = Some (VStr (email bob)) →
       ∃ e, update_user (H:=plain_backend) [] None tuesday 1 bob two_users
            = (Raise e, two_users)
            ∧ surfaced e = Conflict)
  ∧ (ada_row !! "email" = Some (VStr (email bob)) →
     ∃ d s', update_user (H:=plain_backend) [] None tuesday 1 bob two_users
             = (Return d, s'))
  ∧ (∀ fault,
       is_duplicate_email fault = false →
       ∃ e, update_user (H:=plain_backend) [] (Some fault) tuesday 1 bob
              two_users
            = (Raise e, two_users)
            ∧ surfaced e = InternalError).
Proof.
  split; [exact two_users_constraints|].
  split; [reflexivity|].
  split; [exact ada_row_stored|].
  split; [reflexivity|].
  apply (update_user_email_conflict (H:=plain_backend) [] tuesday 1 bob
           two_users ada_row).
  - exact two_users_constraints.
  - reflexivity.
  - exact ada_row_stored.
  - reflexivity.
Defined.

Lemma update_user_preserves_id_created_at_witness :
  constraints two_users
  ∧ ada_row ∈ rows two_users
  ∧ ada_row !! "id" = Some (VInt 1)
  ∧ ada_as_cyd = (Return ada_as_cyd_dict, ada_as_cyd.2)
  ∧ ∃ l1 l2 res',
      rows two_users = l1 ++ ada_row :: l2
      ∧ rows ada_as_cyd.2 = l1 ++ res' :: l2
      ∧ res' !! "id" = ada_row !! "id"
      ∧ res' !! "created_at" = ada_row !! "created_at"
      ∧ ada_as_cyd_dict !! "id" = ada_row !! "id"
      ∧ ada_as_cyd_dict !! "created_at" = ada_row !! "created_at"
      ∧ ∀ k, k ∉ mutable_columns →
             res' !! k = ada_row !! k ∧ ada_as_cyd_dict !! k = ada_row !! k.
Proof.
  split; [exact two_users_constraints|].
  split; [exact ada_row_stored|].
  split; [reflexivity|].
  split; [reflexivity|].
  apply (update_user_preserves_id_created_at (H:=plain_backend) [] None
           tuesday 1 cyd two_users ada_row ada_as_cyd_dict ada_as_cyd.2).
  - exact two_users_constraints.
  - exact ada_row_stored.
  - reflexivity.
  - reflexivity.
Defined.

Lemma signup_fresh_email_witness :
  constraints empty_store
  ∧ (Some (VStr (email ada)) ∉ emails (rows empty_store))
  ∧ ∃ r s',
      (signup (H:=plain_backend) [] monday ada empty_store
       = (Return (Some r), s'))
      ∧ rows s' = rows empty_store ++ [r]
      ∧ filter (λ x, matches ("email", VStr (email ada)) x) (rows s') = [r]
      ∧ r !! "password"
        = Some (VBytes (Fernet_encrypt (H:=plain_backend) (fernet [])
                          monday (encode_utf8 (password ada))))
      ∧ response_model UserOut r !! "email" = Some (VStr (email ada))
      ∧ response_model UserOut r !! "first_name"
        = Some (VStr (first_name ada))
      ∧ response_model UserOut r !! "last_name"
        = Some (VStr (last_name ada))
      ∧ response_model UserOut r !! "password" = None.
Proof.
  assert (constraints empty_store) as Hc by (split; simpl; apply NoDup_nil_2).
  assert (Some (VStr (email ada)) ∉ emails (rows empty_store)) as Hf
    by (simpl; apply not_elem_of_nil).
  split; [exact Hc|]. split; [exact Hf|].
  exact (signup_fresh_email (H:=plain_backend) [] monday ada empty_store
           Hc Hf).
Defined.

Lemma stored_records_invariant_witness :
  history (H:=plain_backend) two_users two_users_log
  ∧ NoDup (emails (rows two_users))
  ∧ ∀ r : row, r ∈ rows two_users →
      ∃ i pw, r !! "id" = Some (VInt i)
              ∧ two_users_log !! i = Some pw
              ∧ row_ok (H:=plain_backend) pw r.
Proof.
  split; [exact two_users_history|].
  exact (stored_records_invariant (H:=plain_backend) two_users two_users_log
           two_users_history).
Defined.

Lemma fernet_encrypt_fresh_iv_witness :
  length (os_urandom monday) = 16%nat
  ∧ length (os_urandom tuesday) = 16%nat
  ∧ (time_time monday = time_time tuesday →
     os_urandom monday = os_urandom tuesday →
     Fernet_encrypt (H:=plain_backend) (fernet []) monday (encode_utf8 "pw")
     = Fernet_encrypt (H:=plain_backend) (fernet []) tuesday
         (encode_utf8 "pw"))
  ∧ (os_urandom monday ≠ os_urandom tuesday →
     Fernet_encrypt (H:=plain_backend) (fernet []) monday (encode_utf8 "pw")
     ≠ Fernet_encrypt (H:=plain_backend) (fernet []) tuesday
         (encode_utf8 "pw")).
Proof.
  split; [reflexivity|]. split; [reflexivity|].
  apply (fernet_encrypt_fresh_iv (H:=plain_backend) [] monday tuesday
           (encode_utf8 "pw")); reflexivity.
Defined.

(** C9, as the spec has it, fails: whatever the backend, the key and the
    plaintext, the encryption of Monday and the encryption of Tuesday, which
    drew different initialisation vectors, give different tokens. *)
Lemma fernet_encrypt_not_deterministic :
  ¬ ∃ (H : Backend) (key data : list byte),
      Fernet_encrypt (fernet key) monday data
      = Fernet_encrypt (fernet key) tuesday data.
Proof.
  intros (H & key & data & Heq). unfold Fernet_encrypt in Heq.
  apply token_time_iv in Heq as [_ Hiv]; [|reflexivity].
  discriminate Hiv.
Qed.

(** ** Further properties of the path operations *)

Section RouterMore.
Context `{Backend} (key : list byte).

(** X1: [get_user] on the id of a stored record returns that record and
    leaves the table as it is. *)
Theorem get_user_existing ev id s res :
  constraints s →
  (0 < id)%Z →
  res ∈ rows s →
  res !! "id" = Some (VInt id) →
  get_user ev id s = (Return (Some res), s).
Proof.
  intros [Hkey _] Hid Hin Hres.
  apply list_elem_of_split in Hin as (l1 & l2 & Hrows).
  rewrite get_user_returns by done. rewrite Hrows in *.
  by rewrite (select_id_split id res l1 l2 Hkey Hres).
Qed.

(** X3: [update_user] on a positive id that no record has raises the 404
    of line 177, whatever the body and the state of the driver, and writes
    nothing. *)
Theorem update_user_not_found fault ev id user s :
  (0 < id)%Z →
  (∀ r : row, r ∈ rows s → r !! "id" ≠ Some (VInt id)) →
  update_user key fault ev id user s
  = (Raise (HTTPException HTTP_404_NOT_FOUND "User not found"), s)
  ∧ surfaced (HTTPException HTTP_404_NOT_FOUND "User not found") = NotFound.
Proof.
  intros Hid Habs. split; [|reflexivity].
  apply update_user_absent; [done|].
  rewrite filter_none; [done|].
  intros r Hr Hm. apply Is_true_true, matches_id in Hm. by apply (Habs r).
Qed.

(** X7: [delete_user] on a positive id that no record has raises the 404
    of line 248 and deletes nothing. *)
Theorem delete_user_not_found ev id s :
  (0 < id)%Z →
  (∀ r : row, r ∈ rows s → r !! "id" ≠ Some (VInt id)) →
  delete_user ev id s
  = (Raise (HTTPException HTTP_404_NOT_FOUND "User not found"), s)
  ∧ surfaced (HTTPException HTTP_404_NOT_FOUND "User not found") = NotFound.
Proof. intros Hid Habs. split; [|reflexivity]. by apply delete_user_absent. Qed.

(** X9: [get_user] and [delete_user], whose only input is the id, reject
    the request as invalid exactly when the id is not positive, whatever the
    driver does: the bound [gt=0] of the path parameter is the only
    validation they perform. *)
Theorem invalid_id_iff f f1 f2 ev id s :
  ((∃ loc, (get_user_with f ev id s).1 = Raise (RequestValidationError loc))
   ↔ (id ≤ 0)%Z)
  ∧ ((∃ loc, (delete_user_with f1 f2 ev id s).1
             = Raise (RequestValidationError loc))
     ↔ (id ≤ 0)%Z).
Proof.
  destruct (decide (0 < id)%Z) as [Hid|Hid].
  - split; (split; [|lia]); intros [loc Hraise]; exfalso.
    + unfold get_user_with in Hraise. unfold_M.
      destruct (decide (0 < id)%Z); [|done]. by destruct f.
    + rewrite delete_user_with_run in Hraise by done.
      destruct f1; [done|]. destruct (is_None _); [done|]. by destruct f2.
  - split; (split; [lia|]); intros _; exists "id".
    + unfold get_user_with. unfold_M. by destruct (decide (0 < id)%Z).
    + unfold delete_user_with. unfold_M. by destruct (decide (0 < id)%Z).
Qed.

(** X10: what a path operation that raises has written, whatever the driver
    does.  [update_user] and [delete_user] have written nothing.  [signup]
    has written nothing either, unless the driver fails on the select of
    line 56: the insert of line 54 is committed by then, and the new row is
    in the table although the request has failed. *)
Theorem store_after_raise f1 f2 ev id user s e s' :
  (update_user_with key f1 f2 ev id user s = (Raise e, s') → s' = s)
  ∧ (delete_user_with f1 f2 ev id s = (Raise e, s') → s' = s)
  ∧ (signup_with key f1 f2 ev user s = (Raise e, s') →
     s' = s
     ∨ ∃ x, f1 = None ∧ f2 = Some x ∧ e = SQLAlchemyError x
            ∧ s' = {| rows := rows s ++ [signup_row key ev user s];
                      auto_increment := auto_increment s + 1 |})
  ∧ (∀ x, NoDup (emails (rows s)) →
          Some (VStr (email user)) ∉ emails (rows s) →
          signup_with key None (Some x) ev user s
          = (Raise (SQLAlchemyError x),
             {| rows := rows s ++ [signup_row key ev user s];
                auto_increment := auto_increment s + 1 |})).
Proof.
  split_and!.
  - intros Hrun.
    destruct (decide (0 < id)%Z) as [Hid|Hid].
    2:{ unfold update_user_with in Hrun. unfold_M.
        destruct (decide (0 < id)%Z); [done|]. by injection Hrun as _ <-. }
    destruct f1 as [e1|].
    { rewrite update_user_with_select_fault in Hrun by done.
      by injection Hrun as _ <-. }
    change (update_user_with key None f2 ev id user s)
      with (update_user key f2 ev id user s) in Hrun.
    destruct (head (filter (λ r, matches ("id", VInt id) r) (rows s)))
      as [res|] eqn:Hsel;
      [|rewrite update_user_absent in Hrun by done; by injection Hrun as _ <-].
    destruct f2 as [x|].
    + rewrite (update_user_fault key x ev id user s res) in Hrun by done.
      by injection Hrun as _ <-.
    + rewrite (update_user_write key ev id user s res) in Hrun by done.
      destruct (unique_email _); [done|]. by injection Hrun as _ <-.
  - intros Hrun. destruct (decide (0 < id)%Z) as [Hid|Hid].
    + rewrite delete_user_with_run in Hrun by done.
      destruct f1; [by injection Hrun as _ <-|].
      destruct (is_None _); [by injection Hrun as _ <-|].
      destruct f2; [by injection Hrun as _ <-|done].
    + unfold delete_user_with in Hrun. unfold_M.
      destruct (decide (0 < id)%Z); [done|]. by injection Hrun as _ <-.
  - intros Hrun. rewrite signup_with_run in Hrun.
    destruct f1 as [e1|]; [left; by injection Hrun as _ <-|].
    destruct (unique_email _); [|left; by injection Hrun as _ <-].
    destruct f2 as [x|]; [|done]. right. exists x.
    by injection Hrun as <- <-.
  - intros x Hnd Hfresh. rewrite signup_with_run.
    assert (unique_email (rows s ++ [signup_row key ev user s]) = true) as ->
      by by apply unique_email_snoc.
    reflexivity.
Qed.

(** *** Complete records *)

Lemma not_in_columns k :
  k ∉ columns →
  k ≠ "id" ∧ k ≠ "first_name" ∧ k ≠ "last_name" ∧ k ≠ "email"
  ∧ k ≠ "password" ∧ k ≠ "created_at" ∧ k ≠ "updated_at".
Proof.
  unfold columns. rewrite !not_elem_of_cons. intros (?&?&?&?&?&?&?&_).
  by split_and!.
Qed.

Lemma signup_row_complete ev user s :
  (1 ≤ auto_increment s)%Z → row_complete (signup_row key ev user s).
Proof.
  intros Hauto. split_and!; try (by eexists).
  - eexists. split; [reflexivity|lia].
  - intros k (?&?&?&?&?&?&?)%not_in_columns. unfold signup_row.
    apply lookup_union_None_2.
    + rewrite lookup_insert_ne by congruence. unfold dict.
      rewrite !lookup_insert_ne by congruence.
      by rewrite lookup_singleton_ne by congruence.
    + unfold column_defaults. rewrite !lookup_insert_ne by congruence.
      by rewrite lookup_singleton_ne by congruence.
Qed.

Lemma update_values_complete ev user (res r : row) :
  row_complete res → row_complete r →
  row_complete (update_values key ev user res ∪ r).
Proof.
  intros (Hid & _ & _ & _ & _ & Hc & Hu & Hres)
         (_ & _ & _ & _ & _ & _ & _ & Hr).
  pose proof (update_values_columns key ev user res) as (Hf & Hl & He & Hp).
  assert (∀ k, k ∈ ["id"; "created_at"; "updated_at"] →
            (update_values key ev user res ∪ r) !! k = res !! k) as Hframe.
  { intros k Hk.
    assert (update_values key ev user res !! k = res !! k) as Hk'.
    { apply update_values_frame. rewrite !elem_of_cons in Hk.
      rewrite !not_elem_of_cons.
      destruct Hk as [->|[->|[->|Hk]]]; [..|by apply not_elem_of_nil in Hk];
        split_and!; try done; apply not_elem_of_nil. }
    rewrite !elem_of_cons in Hk.
    destruct Hk as [->|[->|[->|Hk]]]; [..|by apply not_elem_of_nil in Hk].
    - destruct Hid as (i & Hi & _). rewrite Hi in Hk' |- *.
      by apply lookup_union_Some_l.
    - destruct Hc as (c & Hc). rewrite Hc in Hk' |- *.
      by apply lookup_union_Some_l.
    - destruct Hu as (u & Hu). rewrite Hu in Hk' |- *.
      by apply lookup_union_Some_l. }
  split_and!.
  - rewrite Hframe; [done|by repeat constructor].
  - eexists. by apply lookup_union_Some_l.
  - eexists. by apply lookup_union_Some_l.
  - eexists. by apply lookup_union_Some_l.
  - eexists. by apply lookup_union_Some_l.
  - rewrite Hframe; [done|by repeat constructor].
  - rewrite Hframe; [done|by repeat constructor].
  - intros k Hk. apply lookup_union_None_2; [|by apply Hr].
    pose proof (not_in_columns k Hk) as (?&?&?&?&?&?&?).
    rewrite update_values_frame; [by apply Hres|].
    rewrite !not_elem_of_cons. split_and!; try done. apply not_elem_of_nil.
Qed.

Lemma complete_serve ev rq s :
  (1 ≤ auto_increment s)%Z ∧ Forall row_complete (rows s) →
  (1 ≤ auto_increment (serve key ev rq s))%Z
  ∧ Forall row_complete (rows (serve key ev rq s)).
Proof.
  intros [Hauto Hall].
  destruct rq as [f1 f2 user|f|f id|f1 f2 id user|f1 f2 id]; simpl.
  - destruct (signup_with_store key f1 f2 ev user s) as [->|[_ ->]];
      [done|]. simpl.
    split; [lia|]. apply Forall_app. split; [done|].
    by apply Forall_singleton, signup_row_complete.
  - by rewrite get_all_users_with_store.
  - by rewrite get_user_with_store.
  - destruct (update_user_with_store key f1 f2 ev id user s)
      as [->|(res & Hin & _ & _ & ->)]; [done|]. simpl. split; [done|].
    unfold updated_rows. apply Forall_fmap.
    rewrite Forall_forall in Hall. apply Forall_forall. intros r Hr. simpl.
    destruct (matches _ r); [|by apply Hall].
    apply update_values_complete; by apply Hall.
  - destruct (delete_user_with_store f1 f2 ev id s) as (rs & Hsub & ->).
    simpl. split; [done|]. by apply (Forall_sublist _ _ _ Hsub).
Qed.

End RouterMore.

Section ReachableMore.
Context `{Backend}.

Lemma reachable_complete s :
  reachable s →
  (1 ≤ auto_increment s)%Z ∧ Forall row_complete (rows s).
Proof.
  induction 1 as [|key ev rq s _ IH]; [|by apply complete_serve].
  split; [done|constructor].
Qed.

(** X11: in every table reachable through the router, every record has the
    seven columns of the table, each with a value of its type, a positive
    id, and no other column; so the response schema finds each of its six
    fields in every record the router returns from the table. *)
Theorem stored_records_complete s :
  reachable s →
  ∀ r, r ∈ rows s →
       row_complete r
       ∧ ∀ k, k ∈ UserOut → is_Some (response_model UserOut r !! k).
Proof.
  intros Hreach r Hr.
  apply reachable_complete in Hreach as [_ Hall].
  rewrite Forall_forall in Hall. specialize (Hall r Hr). split; [done|].
  destruct Hall as ((i & Hi & _) & (f & Hf) & (l & Hl) & (e & He) & _
                    & (c & Hc) & (u & Hu) & _).
  intros k Hk. rewrite response_model_lookup.
  destruct (decide (k ∈ UserOut)); [|done].
  unfold UserOut in Hk. rewrite !elem_of_cons in Hk.
  destruct Hk as [->|[->|[->|[->|[->|[->|Hk]]]]]];
    [by eexists..|by apply not_elem_of_nil in Hk].
Qed.

End ReachableMore.

Section RouterSequences.
Context `{Backend} (key : list byte).

(** *** Operations in sequence *)

(** X2: in a reachable table, a [signup] with an email nobody has returns a
    record under a positive id that no record had; a [get_user] with that
    id returns the same record, and [get_all_users] lists it after the
    records that were there. *)
Theorem signup_then_get_user ev ev' user s :
  reachable s →
  Some (VStr (email user)) ∉ emails (rows s) →
  ∃ r id s',
    signup key ev user s = (Return (Some r), s')
    ∧ r !! "id" = Some (VInt id)
    ∧ (0 < id)%Z
    ∧ (∀ old : row, old ∈ rows s → old !! "id" ≠ Some (VInt id))
    ∧ get_user ev' id s' = (Return (Some r), s')
    ∧ get_all_users ev' s' = (Return (rows s ++ [r]), s').
Proof.
  intros Hreach Hfresh.
  pose proof (reachable_invariant s Hreach) as (_ & Huniq & Hbound).
  pose proof (reachable_complete s Hreach) as [Hauto _].
  rewrite Forall_forall in Hbound.
  assert (∀ old : row, old ∈ rows s →
            old !! "id" ≠ Some (VInt (auto_increment s))) as Hnew.
  { intros old Hold Hid. destruct (Hbound old Hold) as (i & Hi & Hlt).
    rewrite Hi in Hid. injection Hid as Hid. lia. }
  exists (signup_row key ev user s), (auto_increment s). eexists.
  split; [by apply signup_fresh|].
  split; [reflexivity|]. split; [lia|]. split; [done|].
  split; [|reflexivity].
  rewrite get_user_returns by lia. simpl.
  rewrite filter_app, (filter_none _ (rows s)).
  - rewrite filter_cons_True; [done|].
    apply Is_true_true, matches_id. reflexivity.
  - intros old Hold Hm. apply Is_true_true, matches_id in Hm.
    by apply (Hnew old).
Qed.

(** X4: after a successful [update_user], the record under that id holds
    the first name, the last name and the email of the body and the token
    of its password, and [get_user] returns the record; the response
    carries the same three fields and, through its schema, no password. *)
Theorem update_user_then_get_user fault ev ev' id user s res d s' :
  constraints s →
  res ∈ rows s →
  res !! "id" = Some (VInt id) →
  update_user key fault ev id user s = (Return d, s') →
  ∃ res',
    get_user ev' id s' = (Return (Some res'), s')
    ∧ res' !! "first_name" = Some (VStr (first_name user))
    ∧ res' !! "last_name" = Some (VStr (last_name user))
    ∧ res' !! "email" = Some (VStr (email user))
    ∧ res' !! "password"
      = Some (VBytes (Fernet_encrypt (fernet key) ev
                        (encode_utf8 (password user))))
    ∧ d !! "first_name" = Some (VStr (first_name user))
    ∧ d !! "last_name" = Some (VStr (last_name user))
    ∧ d !! "email" = Some (VStr (email user))
    ∧ response_model UserOut d !! "password" = None.
Proof.
  intros [Hkey _] Hin Hres Hrun.
  assert (0 < id)%Z as Hid.
  { destruct (decide (0 < id)%Z) as [Hid|Hid]; [done|].
    by rewrite update_user_invalid in Hrun. }
  apply list_elem_of_split in Hin as (l1 & l2 & Hrows).
  destruct (update_user_success key fault ev id user s l1 res l2 d s'
              Hkey Hrows Hres Hrun) as [-> ->].
  pose proof (update_values_columns key ev user res) as (Hf & Hl & He & Hp).
  assert (update_values key ev user res !! "id" = Some (VInt id)) as Hid'.
  { rewrite update_values_frame; [done|].
    rewrite !not_elem_of_cons. split_and!; try done. apply not_elem_of_nil. }
  exists (update_values key ev user res).
  split_and!; try done.
  - rewrite get_user_returns by done. simpl.
    rewrite (select_id_split id _ l1 l2); [done| |done].
    rewrite Hrows, ids_app in Hkey. rewrite ids_app. simpl in *.
    by rewrite Hid', <- Hres.
  - by rewrite lookup_insert_ne.
  - by rewrite lookup_insert_ne.
  - by rewrite lookup_insert_ne.
  - by rewrite response_model_lookup.
Qed.

(** X5: on an existing record and a working driver, [update_user] succeeds
    exactly when no other record has the email of the body. *)
Theorem update_user_succeeds_iff ev id user s res :
  constraints s →
  (0 < id)%Z →
  res ∈ rows s →
  res !! "id" = Some (VInt id) →
  (∃ d s', update_user key None ev id user s = (Return d, s'))
  ↔ (∀ other : row,
       other ∈ rows s → other ≠ res →
       other !! "email" ≠ Some (VStr (email user))).
Proof.
  intros [Hkey Huniq] Hid Hin Hres.
  apply list_elem_of_split in Hin as (l1 & l2 & Hrows).
  pose proof (update_values_columns key ev user res) as (_ & _ & Hemail & _).
  rewrite (update_user_run key ev id user s l1 res l2) by done.
  rewrite Hrows in Hkey, Huniq.
  pose proof (unique_email_replace l1 res (update_values key ev user res) l2
                Huniq) as Hrepl.
  rewrite Hemail in Hrepl.
  pose proof (primary_key_others id res l1 l2 Hkey Hres) as Hothers.
  assert (matches ("id", VInt id) res = true) as Hm by by apply matches_id.
  rewrite Hrows. split.
  - intros (d & s' & Hrun) other Hother Hne Hmail.
    destruct (unique_email _); [|done].
    apply (proj1 Hrepl eq_refl). rewrite <- Hmail. apply elem_of_emails.
    rewrite elem_of_app, elem_of_cons in Hother. rewrite elem_of_app.
    destruct Hother as [?|[?|?]]; [by left|done|by right].
  - intros Hfree.
    assert (unique_email (l1 ++ update_values key ev user res :: l2) = true)
      as ->; [|by eauto].
    apply Hrepl. intros Hmail.
    apply list_elem_of_fmap in Hmail as (other & Hmail & Hother).
    apply (Hfree other); [| |done].
    + rewrite elem_of_app, elem_of_cons. rewrite elem_of_app in Hother.
      destruct Hother; [by left|by right; right].
    + intros ->. specialize (Hothers res Hother). congruence.
Qed.

(** X6: [delete_user] on the id of a stored record answers 204 and removes
    that record; the other records stay, in their order, as
    [get_all_users] shows; a second [delete_user] with the same id raises
    the 404 of line 248. *)
Theorem delete_user_removes ev ev' id s res :
  constraints s →
  (0 < id)%Z →
  res ∈ rows s →
  res !! "id" = Some (VInt id) →
  ∃ l1 l2 s',
    rows s = l1 ++ res :: l2
    ∧ delete_user ev id s
      = (Return {| response_status_code := HTTP_204_NO_CONTENT |}, s')
    ∧ get_all_users ev' s' = (Return (l1 ++ l2), s')
    ∧ delete_user ev' id s'
      = (Raise (HTTPException HTTP_404_NOT_FOUND "User not found"), s').
Proof.
  intros [Hkey _] Hid Hin Hres.
  apply list_elem_of_split in Hin as (l1 & l2 & Hrows).
  exists l1, l2. eexists. split; [done|].
  split; [by apply (delete_user_existing ev id s l1 res l2)|].
  split; [reflexivity|].
  apply delete_user_absent; [done|]. simpl. intros r Hr Hm.
  rewrite Hrows in Hkey.
  pose proof (primary_key_others id res l1 l2 Hkey Hres r Hr) as Hno.
  apply matches_id in Hm. congruence.
Qed.

(** X8: once [delete_user] has removed a record, its email is free again:
    a [signup] with that email succeeds. *)
Theorem delete_user_frees_email ev ev' id user s res :
  constraints s →
  (0 < id)%Z →
  res ∈ rows s →
  res !! "id" = Some (VInt id) →
  res !! "email" = Some (VStr (email user)) →
  ∃ r s'',
    signup key ev' user (delete_user ev id s).2 = (Return (Some r), s'')
    ∧ r !! "email" = Some (VStr (email user)).
Proof.
  intros [Hkey Huniq] Hid Hin Hres Hmail.
  apply list_elem_of_split in Hin as (l1 & l2 & Hrows).
  rewrite (delete_user_existing ev id s l1 res l2) by done. simpl.
  rewrite Hrows, emails_app in Huniq. simpl in Huniq. rewrite Hmail in Huniq.
  apply NoDup_app in Huniq as (Hnd1 & Hdisj & Hnd2).
  apply NoDup_cons in Hnd2 as [Hnot2 Hnd2].
  assert (NoDup (emails (l1 ++ l2))) as Hnd.
  { rewrite emails_app. apply NoDup_app. split_and!; [done| |done].
    intros x Hx Hx'. apply (Hdisj x Hx). by right. }
  assert (Some (VStr (email user)) ∉ emails (l1 ++ l2)) as Hfree.
  { rewrite emails_app, not_elem_of_app. split; [|done].
    intros Hin1. apply (Hdisj _ Hin1). left. }
  eexists _, _. split.
  - by apply signup_fresh.
  - reflexivity.
Qed.

(** X12: whatever the request, a record that is in the table before and
    after it, found by its id, keeps its [created_at]; and unless the
    request is a PUT, the record is the same in every column. *)
Theorem serve_keeps_created_at ev rq s r r' i :
  reachable s →
  r ∈ rows s →
  r' ∈ rows (serve key ev rq s) →
  r !! "id" = Some (VInt i) →
  r' !! "id" = Some (VInt i) →
  r' !! "created_at" = r !! "created_at"
  ∧ ((∀ select_fault fault id user,
        rq ≠ PUT_user select_fault fault id user) → r' = r).
Proof.
  intros Hreach Hr Hr' Hi Hi'.
  pose proof (reachable_invariant s Hreach) as (Hkey & _ & Hbound).
  assert (∀ x : row, x ∈ rows s → x !! "id" = Some (VInt i) → x = r) as Hsame.
  { intros x Hx Hxi. apply (same_id_same_row (rows s)); try done.
    by rewrite Hxi, Hi. }
  destruct rq as [f1 f2 user|f|f id|f1 f2 id user|f1 f2 id]; simpl in Hr'.
  - destruct (signup_with_store key f1 f2 ev user s) as [Heq|[_ Heq]];
      rewrite Heq in Hr'; [by rewrite (Hsame r' Hr' Hi')|].
    simpl in Hr'. apply elem_of_app in Hr' as [Hr'|Hr'];
      [by rewrite (Hsame r' Hr' Hi')|].
    apply list_elem_of_singleton in Hr'. subst r'. exfalso.
    rewrite Forall_forall in Hbound.
    destruct (Hbound r Hr) as (j & Hj & Hlt).
    change (Some (VInt (auto_increment s)) = Some (VInt i)) in Hi'.
    rewrite Hi in Hj. injection Hi' as Hi'. injection Hj as Hj. lia.
  - rewrite get_all_users_with_store in Hr'. by rewrite (Hsame r' Hr' Hi').
  - rewrite get_user_with_store in Hr'. by rewrite (Hsame r' Hr' Hi').
  - split; [|intros Hne; by destruct (Hne f1 f2 id user)].
    destruct (update_user_with_store key f1 f2 ev id user s)
      as [Heq|(res & Hres & Hid & _ & Heq)];
      rewrite Heq in Hr'; [by rewrite (Hsame r' Hr' Hi')|].
    simpl in Hr'. unfold updated_rows in Hr'.
    apply list_elem_of_fmap in Hr' as (r0 & -> & Hr0).
    assert (update_values key ev user res !! "id" = Some (VInt id)) as Hid'.
    { rewrite update_values_frame; [done|].
      rewrite !not_elem_of_cons. split_and!; try done. apply not_elem_of_nil. }
    destruct (matches ("id", VInt id) r0) eqn:Hm;
      [|by rewrite (Hsame r0 Hr0 Hi')].
    rewrite (lookup_union_Some_l _ _ _ _ Hid') in Hi'. injection Hi' as ->.
    rewrite (Hsame res Hres Hid) in *.
    apply matches_id in Hm. rewrite (Hsame r0 Hr0 Hm).
    rewrite update_values_union. apply update_values_frame.
    rewrite !not_elem_of_cons. split_and!; try done. apply not_elem_of_nil.
  - destruct (delete_user_with_store f1 f2 ev id s) as (rs & Hsub & Heq).
    rewrite Heq in Hr'. simpl in Hr'.
    by rewrite (Hsame r' (elem_of_sublist _ _ _ Hr' Hsub) Hi').
Qed.

End RouterSequences.

(** ** Instances of the further properties on the sample requests *)

Lemma two_users_no_id_3 :
  ∀ r : row, r ∈ rows two_users → r !! "id" ≠ Some (VInt 3).
Proof.
  apply Forall_forall, (bool_decide_unpack _). vm_compute. exact I.
Defined.

Lemma cyd_email_fresh : Some (VStr (email cyd)) ∉ emails (rows two_users).
Proof. apply (bool_decide_unpack _). vm_compute. exact I. Defined.

Lemma get_user_existing_witness :
  constraints two_users
  ∧ (0 < 1)%Z
  ∧ ada_row ∈ rows two_users
  ∧ ada_row !! "id" = Some (VInt 1)
  ∧ get_user monday 1 two_users = (Return (Some ada_row), two_users).
Proof.
  split; [exact two_users_constraints|]. split; [reflexivity|].
  split; [exact ada_row_stored|]. split; [reflexivity|].
  apply (get_user_existing monday 1 two_users ada_row).
  - exact two_users_constraints.
  - reflexivity.
  - exact ada_row_stored.
  - reflexivity.
Defined.

Lemma signup_then_get_user_witness :
  reachable (H:=plain_backend) two_users
  ∧ (Some (VStr (email cyd)) ∉ emails (rows two_users))
  ∧ ∃ r id s',
      (signup (H:=plain_backend) [] monday cyd two_users
       = (Return (Some r), s'))
      ∧ r !! "id" = Some (VInt id)
      ∧ (0 < id)%Z
      ∧ (∀ old : row, old ∈ rows two_users → old !! "id" ≠ Some (VInt id))
      ∧ get_user tuesday id s' = (Return (Some r), s')
      ∧ get_all_users tuesday s' = (Return (rows two_users ++ [r]), s').
Proof.
  split; [exact two_users_reachable|]. split; [exact cyd_email_fresh|].
  exact (signup_then_get_user (H:=plain_backend) [] monday tuesday cyd
           two_users two_users_reachable cyd_email_fresh).
Defined.

Lemma update_user_not_found_witness :
  (0 < 3)%Z
  ∧ (∀ r : row, r ∈ rows two_users → r !! "id" ≠ Some (VInt 3))
  ∧ update_user (H:=plain_backend) [] None tuesday 3 cyd two_users
    = (Raise (HTTPException HTTP_404_NOT_FOUND "User not found"), two_users)
  ∧ surfaced (HTTPException HTTP_404_NOT_FOUND "User not found") = NotFound.
Proof.
  split; [reflexivity|]. split; [exact two_users_no_id_3|].
  apply (update_user_not_found (H:=plain_backend) [] None tuesday 3 cyd
           two_users); [reflexivity|exact two_users_no_id_3].
Defined.

Lemma update_user_then_get_user_witness :
  constraints two_users
  ∧ ada_row ∈ rows two_users
  ∧ ada_row !! "id" = Some (VInt 1)
  ∧ ada_as_cyd = (Return ada_as_cyd_dict, ada_as_cyd.2)
  ∧ ∃ res',
      get_user monday 1 ada_as_cyd.2 = (Return (Some res'), ada_as_cyd.2)
      ∧ res' !! "first_name" = Some (VStr (first_name cyd))
      ∧ res' !! "last_name" = Some (VStr (last_name cyd))
      ∧ res' !! "email" = Some (VStr (email cyd))
      ∧ res' !! "password"
        = Some (VBytes (Fernet_encrypt (H:=plain_backend) (fernet [])
                          tuesday (encode_utf8 (password cyd))))
      ∧ ada_as_cyd_dict !! "first_name" = Some (VStr (first_name cyd))
      ∧ ada_as_cyd_dict !! "last_name" = Some (VStr (last_name cyd))
      ∧ ada_as_cyd_dict !! "email" = Some (VStr (email cyd))
      ∧ response_model UserOut ada_as_cyd_dict !! "password" = None.
Proof.
  split; [exact two_users_constraints|]. split; [exact ada_row_stored|].
  split; [reflexivity|]. split; [reflexivity|].
  apply (update_user_then_get_user (H:=plain_backend) [] None tuesday monday
           1 cyd two_users ada_row ada_as_cyd_dict ada_as_cyd.2).
  - exact two_users_constraints.
  - exact ada_row_stored.
  - reflexivity.
  - reflexivity.
Defined.

Lemma update_user_succeeds_iff_witness :
  constraints two_users
  ∧ (0 < 1)%Z
  ∧ ada_row ∈ rows two_users
  ∧ ada_row !! "id" = Some (VInt 1)
  ∧ ((∃ d s', update_user (H:=plain_backend) [] None tuesday 1 cyd two_users
              = (Return d, s'))
     ↔ (∀ other : row,
          other ∈ rows two_users → other ≠ ada_row →
          other !! "email" ≠ Some (VStr (email cyd)))).
Proof.
  split; [exact two_users_constraints|]. split; [reflexivity|].
  split; [exact ada_row_stored|]. split; [reflexivity|].
  apply (update_user_succeeds_iff (H:=plain_backend) [] tuesday 1 cyd
           two_users ada_row).
  - exact two_users_constraints.
  - reflexivity.
  - exact ada_row_stored.
  - reflexivity.
Defined.

Lemma delete_user_removes_witness :
  constraints two_users
  ∧ (0 < 1)%Z
  ∧ ada_row ∈ rows two_users
  ∧ ada_row !! "id" = Some (VInt 1)
  ∧ ∃ l1 l2 s',
      rows two_users = l1 ++ ada_row :: l2
      ∧ delete_user monday 1 two_users
        = (Return {| response_status_code := HTTP_204_NO_CONTENT |}, s')
      ∧ get_all_users tuesday s' = (Return (l1 ++ l2), s')
      ∧ delete_user tuesday 1 s'
        = (Raise (HTTPException HTTP_404_NOT_FOUND "User not found"), s').
Proof.
  split; [exact two_users_constraints|]. split; [reflexivity|].
  split; [exact ada_row_stored|]. split; [reflexivity|].
  apply (delete_user_removes monday tuesday 1 two_users ada_row).
  - exact two_users_constraints.
  - reflexivity.
  - exact ada_row_stored.
  - reflexivity.
Defined.

Lemma delete_user_not_found_witness :
  (0 < 3)%Z
  ∧ (∀ r : row, r ∈ rows two_users → r !! "id" ≠ Some (VInt 3))
  ∧ delete_user tuesday 3 two_users
    = (Raise (HTTPException HTTP_404_NOT_FOUND "User not found"), two_users)
  ∧ surfaced (HTTPException HTTP_404_NOT_FOUND "User not found") = NotFound.
Proof.
  split; [reflexivity|]. split; [exact two_users_no_id_3|].
  apply (delete_user_not_found tuesday 3 two_users);
    [reflexivity|exact two_users_no_id_3].
Defined.

Lemma delete_user_frees_email_witness :
  constraints two_users
  ∧ (0 < 1)%Z
  ∧ ada_row ∈ rows two_users
  ∧ ada_row !! "id" = Some (VInt 1)
  ∧ ada_row !! "email" = Some (VStr (email ada))
  ∧ ∃ r s'',
      (signup (H:=plain_backend) [] tuesday ada
         (delete_user monday 1 two_users).2
       = (Return (Some r), s''))
      ∧ r !! "email" = Some (VStr (email ada)).
Proof.
  split; [exact two_users_constraints|]. split; [reflexivity|].
  split; [exact ada_row_stored|]. split; [reflexivity|].
  split; [reflexivity|].
  apply (delete_user_frees_email (H:=plain_backend) [] monday tuesday 1 ada
           two_users ada_row).
  - exact two_users_constraints.
  - reflexivity.
  - exact ada_row_stored.
  - reflexivity.
  - reflexivity.
Defined.

Lemma two_users_emails_unique : NoDup (emails (rows two_users)).
Proof. apply (bool_decide_unpack _). vm_compute. exact I. Defined.

Lemma store_after_raise_witness :
  NoDup (emails (rows two_users))
  ∧ (Some (VStr (email cyd)) ∉ emails (rows two_users))
  ∧ signup_with (H:=plain_backend) [] None (Some lost_connection) tuesday cyd
      two_users
    = (Raise (SQLAlchemyError lost_connection),
       {| rows := rows two_users
                  ++ [signup_row (H:=plain_backend) [] tuesday cyd two_users];
          auto_increment := auto_increment two_users + 1 |}).
Proof.
  split; [exact two_users_emails_unique|]. split; [exact cyd_email_fresh|].
  exact (proj2 (proj2 (proj2
           (store_after_raise (H:=plain_backend) [] None None tuesday 1 cyd
              two_users (KeyError "id") two_users)))
           lost_connection two_users_emails_unique cyd_email_fresh).
Defined.

Lemma stored_records_complete_witness :
  reachable (H:=plain_backend) two_users
  ∧ ∀ r, r ∈ rows two_users →
         row_complete r
         ∧ ∀ k, k ∈ UserOut → is_Some (response_model UserOut r !! k).
Proof.
  split; [exact two_users_reachable|].
  exact (stored_records_complete (H:=plain_backend) two_users
           two_users_reachable).
Defined.

Lemma cyd_row_stored :
  cyd_row
  ∈ rows (serve (H:=plain_backend) [] tuesday (PUT_user None None 1 cyd)
            two_users).
Proof. apply (bool_decide_unpack _). vm_compute. exact I. Defined.

Lemma serve_keeps_created_at_witness :
  reachable (H:=plain_backend) two_users
  ∧ ada_row ∈ rows two_users
  ∧ cyd_row
    ∈ rows (serve (H:=plain_backend) [] tuesday (PUT_user None None 1 cyd)
              two_users)
  ∧ ada_row !! "id" = Some (VInt 1)
  ∧ cyd_row !! "id" = Some (VInt 1)
  ∧ cyd_row !! "created_at" = ada_row !! "created_at"
  ∧ ((∀ select_fault fault id user,
        PUT_user None None 1 cyd ≠ PUT_user select_fault fault id user) →
     cyd_row = ada_row).
Proof.
  split; [exact two_users_reachable|]. split; [exact ada_row_stored|].
  split; [exact cyd_row_stored|]. split; [reflexivity|].
  split; [reflexivity|].
  apply (serve_keeps_created_at (H:=plain_backend) [] tuesday
           (PUT_user None None 1 cyd) two_users ada_row cyd_row 1).
  - exact two_users_reachable.
  - exact ada_row_stored.
  - exact cyd_row_stored.
  - reflexivity.
  - reflexivity.
Defined.
